(** * CSE190 Assignment 1 (Minimal/main.cpp): the sphere-touching game

    A shallow embedding of the game logic of [ExampleApp] (the round state
    machine inside [renderScene], the target picker [random_Highlight]) and
    of the key handlers of [GlfwApp] and [RiftApp], followed by the
    properties of the written specification that concern them.

    Conventions of the embedding:
    - [float] is IEEE binary32 and [double] is IEEE binary64, both through
      the executable [SpecFloat] operations (round to nearest even);
    - [int] is a 32-bit two's complement integer carried by [Z]; a signed
      overflow is undefined in C++ and is a [Fault] of the model;
    - [std::clock_t] values are carried by [Z] and subtracted there: the
      ticks of a session stay far from the ends of a [long];
    - the host (Oculus runtime, C library clock and [rand]) is an input:
      every value the code reads from it is a field of [Inputs] or an entry
      of the random source of the [World];
    - GLM is a header library outside the repository: its matrix operations
      are an interface ([GLM]), of which [glm_0_9_8] is one implementation;
    - the GPU calls of [renderScene] ([cursor->render], [highlight],
      [unhighlight], [sphereScene->render]) only select a shader and submit
      draws; they neither read nor write the round state and are left out. *)

From Stdlib Require Import ZArith List Bool Lia.
From Stdlib Require Import Floats.SpecFloat.
From Stdlib Require Strings.String.
Import ListNotations.
Import String.StringSyntax.
Delimit Scope string_scope with string.

Local Open Scope Z_scope.

Set Implicit Arguments.

(* ------------------------------------------------------------------ *)
(** ** Floating point *)

(** C++ [float]: IEEE 754 binary32. *)
Module F32.
Definition prec : Z := 24.
Definition emax : Z := 128.
Definition t : Type := spec_float.
Definition of_Z (z : Z) : t := binary_normalize prec emax z 0 false.
Definition add : t -> t -> t := SFadd prec emax.
Definition sub : t -> t -> t := SFsub prec emax.
Definition mul : t -> t -> t := SFmul prec emax.
Definition div : t -> t -> t := SFdiv prec emax.
Definition sqrt : t -> t := SFsqrt prec emax.
Definition ltb : t -> t -> bool := SFltb.
(** The literal [n/d] written in decimal ([0.14f] is [lit 14 100]): the
    binary32 value nearest to the quotient. *)
Definition lit (n d : Z) : t := div (of_Z n) (of_Z d).
End F32.

(** C++ [double]: IEEE 754 binary64. *)
Module F64.
Definition prec : Z := 53.
Definition emax : Z := 1024.
Definition t : Type := spec_float.
Definition of_Z (z : Z) : t := binary_normalize prec emax z 0 false.
Definition div : t -> t -> t := SFdiv prec emax.
Definition leb : t -> t -> bool := SFleb.
End F64.

(* ------------------------------------------------------------------ *)
(** ** Vectors and the GLM interface *)

(** [glm::vec3] and [ovrVector3f]: three floats. *)
Record vec3 : Type := Vec3 { x3 : F32.t; y3 : F32.t; z3 : F32.t }.

(** [glm::vec4]. *)
Record vec4 : Type := Vec4 { x4 : F32.t; y4 : F32.t; z4 : F32.t; w4 : F32.t }.

(** [ovrQuatf]. *)
Record ovrQuatf : Type := Quatf { qx : F32.t; qy : F32.t; qz : F32.t; qw : F32.t }.

(** [glm::vec4(pos, 1.0f)] and [glm::vec3(v)]. *)
Definition vec4_of (p : vec3) (w : F32.t) : vec4 := Vec4 (x3 p) (y3 p) (z3 p) w.
Definition vec3_of (v : vec4) : vec3 := Vec3 (x4 v) (y4 v) (z4 v).

(** The operations of GLM that [renderScene] calls. *)
Class GLM : Type := {
  mat4 : Type;
  (** [glm::mat4 m;] *)
  mat4_default : mat4;
  (** [glm::mat4(s)] *)
  mat4_diag : F32.t -> mat4;
  (** [glm::mat4(x0, y0, z0, w0, ..., x3, y3, z3, w3)], column by column *)
  mat4_columns : vec4 -> vec4 -> vec4 -> vec4 -> mat4;
  (** [glm::translate(m, v)] *)
  translate : mat4 -> vec3 -> mat4;
  (** [a * b] *)
  mat4_mul : mat4 -> mat4 -> mat4;
  (** [m * v] *)
  mat4_mul_vec4 : mat4 -> vec4 -> vec4
}.

(** One implementation, following GLM 0.9.8 (where a default constructed
    matrix is the identity, as [ovr::toGlm(const ovrPosef&)] relies on). *)
Module Glm098.
Record mat : Type := Mat { c0 : vec4; c1 : vec4; c2 : vec4; c3 : vec4 }.

Definition zero : F32.t := F32.of_Z 0.
Definition one : F32.t := F32.of_Z 1.

Definition diag (s : F32.t) : mat :=
  Mat (Vec4 s zero zero zero) (Vec4 zero s zero zero)
      (Vec4 zero zero s zero) (Vec4 zero zero zero s).

Definition scale4 (v : vec4) (s : F32.t) : vec4 :=
  Vec4 (F32.mul (x4 v) s) (F32.mul (y4 v) s) (F32.mul (z4 v) s) (F32.mul (w4 v) s).

Definition add4 (a b : vec4) : vec4 :=
  Vec4 (F32.add (x4 a) (x4 b)) (F32.add (y4 a) (y4 b))
       (F32.add (z4 a) (z4 b)) (F32.add (w4 a) (w4 b)).

(** [Result[3] = m[0] * v[0] + m[1] * v[1] + m[2] * v[2] + m[3]] *)
Definition translate (m : mat) (v : vec3) : mat :=
  Mat (c0 m) (c1 m) (c2 m)
      (add4 (add4 (add4 (scale4 (c0 m) (x3 v)) (scale4 (c1 m) (y3 v)))
                  (scale4 (c2 m) (z3 v)))
            (c3 m)).

(** [m * v]: [(m[0] * v[0] + m[1] * v[1]) + (m[2] * v[2] + m[3] * v[3])] *)
Definition mul_vec4 (m : mat) (v : vec4) : vec4 :=
  add4 (add4 (scale4 (c0 m) (x4 v)) (scale4 (c1 m) (y4 v)))
       (add4 (scale4 (c2 m) (z4 v)) (scale4 (c3 m) (w4 v))).

(** [a * b], column [j]:
    [a[0] * b[j][0] + a[1] * b[j][1] + a[2] * b[j][2] + a[3] * b[j][3]] *)
Definition mul_column (a : mat) (v : vec4) : vec4 :=
  add4 (add4 (add4 (scale4 (c0 a) (x4 v)) (scale4 (c1 a) (y4 v)))
             (scale4 (c2 a) (z4 v)))
       (scale4 (c3 a) (w4 v)).

Definition mul (a b : mat) : mat :=
  Mat (mul_column a (c0 b)) (mul_column a (c1 b))
      (mul_column a (c2 b)) (mul_column a (c3 b)).
End Glm098.

#[export] Instance glm_0_9_8 : GLM := {|
  mat4 := Glm098.mat;
  mat4_default := Glm098.diag Glm098.one;
  mat4_diag := Glm098.diag;
  mat4_columns := Glm098.Mat;
  translate := Glm098.translate;
  mat4_mul := Glm098.mul;
  mat4_mul_vec4 := Glm098.mul_vec4
|}.

(* ------------------------------------------------------------------ *)
(** ** The windowing library: key events *)

(** glfw3.h *)
Definition GLFW_PRESS : Z := 1.
Definition GLFW_KEY_ESCAPE : Z := 256.
Definition GLFW_KEY_R : Z := 82.

(** The calls into the host libraries a key handler can make. *)
Inductive HostCall : Type :=
| glfwSetWindowShouldClose (value : Z)
| ovr_RecenterTrackingOrigin.

Module GlfwApp.
(** [virtual void onKey(int key, int scancode, int action, int mods)] *)
Definition onKey (key scancode action mods : Z) : list HostCall :=
  if negb (GLFW_PRESS =? action) then []
  else if key =? GLFW_KEY_ESCAPE then [glfwSetWindowShouldClose 1]
  else [].
End GlfwApp.

Module RiftApp.
(** [void onKey(int key, int scancode, int action, int mods) override] *)
Definition onKey (key scancode action mods : Z) : list HostCall :=
  if (GLFW_PRESS =? action) && (key =? GLFW_KEY_R)
  then [ovr_RecenterTrackingOrigin]
  else GlfwApp.onKey key scancode action mods.
End RiftApp.

(** [GlfwApp::KeyCallback]: [ExampleApp] does not override [onKey], so the
    virtual call lands in [RiftApp::onKey]. *)
Definition KeyCallback (key scancode action mods : Z) : list HostCall :=
  RiftApp.onKey key scancode action mods.

(* ------------------------------------------------------------------ *)
(** ** The VR runtime: what [renderScene] reads from it *)

(** OVR_CAPI.h: [ovrHandType], [ovrPosef], the bit masks of [ovrInputState]
    and [OVR_SUCCESS]. *)
Inductive ovrHandType : Type := ovrHand_Left | ovrHand_Right.

Record ovrPosef : Type := Posef { Orientation : ovrQuatf; Position : vec3 }.

(** Only the two bit masks of [ovrInputState] are read. *)
Record ovrInputState : Type := InputState { Buttons : Z; Touches : Z }.

Definition ovrButton_X : Z := 0x100.
Definition ovrTouch_RIndexTrigger : Z := 0x10.

Definition ovrResult : Type := Z.
Definition OVR_SUCCESS (r : ovrResult) : bool := 0 <=? r.

(** One call of [ovr_GetInputState]: its result code and what it stored in
    [inputState]. *)
Definition Query : Type := (ovrResult * ovrInputState)%type.

(** [inputState.Buttons & ovrButton_X] and
    [inputState.Touches & ovrTouch_RIndexTrigger], as conditions. *)
Definition button_X (i : ovrInputState) : bool :=
  negb (Z.land (Buttons i) ovrButton_X =? 0).
Definition trigger_touched (i : ovrInputState) : bool :=
  negb (Z.land (Touches i) ovrTouch_RIndexTrigger =? 0).

(** Everything one call of [renderScene] obtains from its environment, in
    the order of the calls: the predicted hand poses, the three
    [ovr_GetInputState] queries, and the two samples of [std::clock()] (the
    first is taken only when a round starts). *)
Record Inputs : Type := {
  HandPoses : ovrHandType -> ovrPosef;
  grabQuery : Query;
  startQuery : Query;
  touchQuery : Query;
  clock_at_start : Z;
  clock_now : Z
}.

Definition handPosition (f : Inputs) (h : ovrHandType) : vec3 :=
  Position (HandPoses f h).
Definition handRotation (f : Inputs) (h : ovrHandType) : ovrQuatf :=
  Orientation (HandPoses f h).

(* ------------------------------------------------------------------ *)
(** ** The scene: a 5 x 5 x 5 grid of spheres *)

Definition GRID_SIZE : Z := 5.

(** The constructor of [ColorSphereScene]: z outermost, x innermost, and
    [0.14f * x] with [x] converted from [unsigned int]. *)
Definition grid_axis : list Z := map Z.of_nat (seq 0 (Z.to_nat GRID_SIZE)).

Definition spheres_positions : list vec3 :=
  flat_map (fun z =>
    flat_map (fun y =>
      map (fun x =>
             Vec3 (F32.mul (F32.lit 14 100) (F32.of_Z x))
                  (F32.mul (F32.lit 14 100) (F32.of_Z y))
                  (F32.mul (F32.lit 14 100) (F32.of_Z z)))
          grid_axis)
      grid_axis)
    grid_axis.

(** [v[i]] on a [std::vector] with an [int] index: a negative index becomes
    a huge [size_t]; outside the vector the read is undefined. *)
Definition vector_at {A : Type} (v : list A) (i : Z) : option A :=
  if i <? 0 then None else nth_error v (Z.to_nat i).

(* ------------------------------------------------------------------ *)
(** ** The state of the game *)

Definition INT_MAX : Z := 2147483647.

(** The conversion of an [int] to [unsigned int]. *)
Definition to_unsigned (i : Z) : Z := i mod 2 ^ 32.

(** The members of [ExampleApp] that outlive a call of [renderScene]. The
    hand tracking members are overwritten at the start of every call before
    they are read, so they are [Inputs]. *)
Record ExampleApp : Type := {
  GameState : bool;
  selectedSphere : Z;
  collider : bool;
  start : Z;
  duration : F64.t;
  score : Z
}.

(** What the game writes to [std::cout]. *)
Inductive Msg : Type :=
| GAME_START
| GAME_OVER
| Your_Final_Score_is (n : Z)
| Collide_Your_Current_Score_is (n : Z).

(** The program state between two calls: the application object, the text
    written so far, and the random source: entry [i] is what the [i]-th
    future [srand(time(NULL)); rand()] returns. *)
Record World : Type := {
  app : ExampleApp;
  cout : list Msg;
  rand_src : nat -> N
}.

(** The state a constructed [ExampleApp] starts from: [GameState = false],
    [selectedSphere = -1], [score = 0]; [collider], [start] and [duration]
    have no initialiser. *)
Definition ExampleApp_new (collider0 : bool) (start0 : Z) (duration0 : F64.t)
  : ExampleApp :=
  {| GameState := false; selectedSphere := -1; collider := collider0;
     start := start0; duration := duration0; score := 0 |}.

Definition World_new (collider0 : bool) (start0 : Z) (duration0 : F64.t)
    (rng : nat -> N) : World :=
  {| app := ExampleApp_new collider0 start0 duration0; cout := []; rand_src := rng |}.

(** Outcomes of a piece of code: it finishes, it is still looping when the
    fuel is spent, or it leaves defined behaviour. *)
Inductive fault : Type := OutOfBounds | SignedOverflow.

Inductive result (A : Type) : Type :=
| Done (a : A)
| Spin
| Fault (why : fault).

Arguments Done {A} a.
Arguments Spin {A}.
Arguments Fault {A} why.

Definition bind {A B : Type} (r : result A) (k : A -> result B) : result B :=
  match r with
  | Done a => k a
  | Spin => Spin
  | Fault why => Fault why
  end.

Notation "x <- r ;; k" := (bind r (fun x => k))
  (at level 61, r at next level, right associativity).

Definition print (m : Msg) (w : World) : World :=
  {| app := app w; cout := cout w ++ [m]; rand_src := rand_src w |}.

Definition with_app (w : World) (a : ExampleApp) : World :=
  {| app := a; cout := cout w; rand_src := rand_src w |}.

(* ------------------------------------------------------------------ *)
(** ** [ExampleApp::random_Highlight] *)

Definition NUM_SPHERES : Z := 125.

(** [rand() % 125] on the [n]-th entry of the random source. *)
Definition random_number (rng : nat -> N) (n : nat) : Z :=
  Z.rem (Z.of_N (rng n)) 125.

(** The [while (random_number == selectedSphere)] loop, entered with the
    [n]-th draw in [random_number]; [fuel] bounds the number of redraws.
    It returns the accepted number and how many draws were made. *)
Fixpoint redraw (fuel : nat) (rng : nat -> N) (n : nat) (selected : Z)
  : result (Z * nat) :=
  if random_number rng n =? selected then
    match fuel with
    | O => Spin
    | S fuel' => redraw fuel' rng (S n) selected
    end
  else Done (random_number rng n, S n).

Definition random_Highlight (fuel : nat) (w : World) : result World :=
  p <- redraw fuel (rand_src w) 0 (selectedSphere (app w)) ;;
  Done {| app := {| GameState := GameState (app w);
                    selectedSphere := fst p;
                    collider := false;
                    start := start (app w);
                    duration := duration (app w);
                    score := score (app w) |};
          cout := cout w;
          rand_src := fun i => rand_src w (snd p + i)%nat |}.

(* ------------------------------------------------------------------ *)
(** ** [ExampleApp::renderScene] *)

Section RenderScene.

Context {G : GLM}.

(** time.h: the number of [std::clock()] ticks in a second. *)
Variable CLOCKS_PER_SEC : Z.

Definition f1 : F32.t := F32.of_Z 1.
Definition f0 : F32.t := F32.of_Z 0.

(** [2 * a*b] in [float]: [(2 * a) * b]. *)
Definition twice (a b : F32.t) : F32.t := F32.mul (F32.mul (F32.of_Z 2) a) b.

(** The rotation matrix built from the left hand's quaternion. *)
Definition rotate (q : ovrQuatf) : mat4 :=
  let x := qx q in let y := qy q in let z := qz q in let w := qw q in
  mat4_columns
    (Vec4 (F32.sub (F32.sub f1 (twice y y)) (twice z z))
          (F32.add (twice x y) (twice w z))
          (F32.sub (twice x z) (twice w y))
          f0)
    (Vec4 (F32.sub (twice x y) (twice w z))
          (F32.sub (F32.sub f1 (twice x x)) (twice z z))
          (F32.add (twice y z) (twice w x))
          f0)
    (Vec4 (F32.add (twice x z) (twice w y))
          (F32.sub (twice y z) (twice w x))
          (F32.sub (F32.sub f1 (twice x x)) (twice y y))
          f0)
    (Vec4 f0 f0 f0 f1).

(** The value of the local [LHOrientationPosition] after the first query:
    the left hand's pose while X is held, the identity while it is not,
    and the default constructed matrix when the query failed. *)
Definition LHOrientationPosition (f : Inputs) : mat4 :=
  if OVR_SUCCESS (fst (grabQuery f)) then
    if button_X (snd (grabQuery f)) then
      mat4_mul (translate (mat4_diag f1) (handPosition f ovrHand_Left))
               (rotate (handRotation f ovrHand_Left))
    else mat4_diag f1
  else mat4_default.

(** "User pulls the trigger button (index finger) to start the game." *)
Definition startGame (fuel : nat) (f : Inputs) (w : World) : result World :=
  if OVR_SUCCESS (fst (startQuery f)) && negb (GameState (app w)) then
    if trigger_touched (snd (startQuery f)) then
      let started :=
        {| GameState := true;
           selectedSphere := selectedSphere (app w);
           collider := collider (app w);
           start := clock_at_start f;
           duration := duration (app w);
           score := score (app w) |} in
      w1 <- random_Highlight fuel (print GAME_START (with_app w started)) ;;
      Done (with_app w1
              {| GameState := GameState (app w1);
                 selectedSphere := selectedSphere (app w1);
                 collider := collider (app w1);
                 start := start (app w1);
                 duration := duration (app w1);
                 score := 0 |})
    else Done w
  else Done w.

(** "A center-distance test between highlighted sphere and cursor sphere":
    the sphere's position moved by [LHOrientationPosition], and the [float]
    distance from it to the right hand.  [sqrt] is correctly rounded, so the
    [float] overload and the [double] one followed by the conversion to
    [float] give the same value. *)
Definition dist (LH : mat4) (sphere hand : vec3) : F32.t :=
  let pos := vec3_of (mat4_mul_vec4 LH (vec4_of sphere f1)) in
  let dx := F32.sub (x3 pos) (x3 hand) in
  let dy := F32.sub (y3 pos) (y3 hand) in
  let dz := F32.sub (z3 pos) (z3 hand) in
  F32.sqrt (F32.add (F32.add (F32.mul dx dx) (F32.mul dy dy)) (F32.mul dz dz)).

(** [0.055f] *)
Definition threshold : F32.t := F32.lit 55 1000.

(** The third query and [dist < 0.055f && inputState.Touches &
    ovrTouch_RIndexTrigger]: whether this call sets [collider]. *)
Definition touching (f : Inputs) (d : F32.t) : bool :=
  OVR_SUCCESS (fst (touchQuery f))
  && (F32.ltb d threshold && trigger_touched (snd (touchQuery f))).

Definition collisionTest (f : Inputs) (d : F32.t) (a : ExampleApp) : ExampleApp :=
  if touching f d then
    {| GameState := GameState a; selectedSphere := selectedSphere a;
       collider := true;
       start := start a; duration := duration a; score := score a |}
  else a.

(** [(std::clock() - start) / (double)CLOCKS_PER_SEC] *)
Definition elapsed (now since : Z) : F64.t :=
  F64.div (F64.of_Z (now - since)) (F64.of_Z CLOCKS_PER_SEC).

(** [duration >= 60] *)
Definition time_is_up (d : F64.t) : bool := F64.leb (F64.of_Z 60) d.

(** "Time Duration : Each Game for one miniute" *)
Definition gameTimer (f : Inputs) (w : World) : World :=
  let d := elapsed (clock_now f) (start (app w)) in
  if time_is_up d then
    with_app
      (print (Your_Final_Score_is (score (app w))) (print GAME_OVER w))
      {| GameState := false;
         selectedSphere := -1;
         collider := collider (app w);
         start := 0;
         duration := d;
         score := 0 |}
  else
    with_app w
      {| GameState := GameState (app w);
         selectedSphere := selectedSphere (app w);
         collider := collider (app w);
         start := start (app w);
         duration := d;
         score := score (app w) |}.

(** "If Game is On": the collision test, then the timer. *)
Definition gameOn (f : Inputs) (w : World) : result World :=
  if GameState (app w) then
    match vector_at spheres_positions (selectedSphere (app w)) with
    | None => Fault OutOfBounds
    | Some pos =>
        let d := dist (LHOrientationPosition f) pos (handPosition f ovrHand_Right) in
        Done (gameTimer f (with_app w (collisionTest f d (app w))))
    end
  else Done w.

(** [score++] *)
Definition increment_score (w : World) : result World :=
  if score (app w) <? INT_MAX then
    Done (with_app w
            {| GameState := GameState (app w);
               selectedSphere := selectedSphere (app w);
               collider := collider (app w);
               start := start (app w);
               duration := duration (app w);
               score := score (app w) + 1 |})
  else Fault SignedOverflow.

(** The body of the [if (collider)] branch: a registered hit. *)
Definition hit (fuel : nat) (w : World) : result World :=
  w1 <- random_Highlight fuel w ;;
  w2 <- increment_score w1 ;;
  Done (print (Collide_Your_Current_Score_is (score (app w2))) w2).

(** One iteration of the "Render Spheres Scene" loop, for sphere [i]. *)
Definition renderSphere (fuel : nat) (i : Z) (w : World) : result World :=
  if GameState (app w) then
    if i =? to_unsigned (selectedSphere (app w)) then
      if collider (app w) then hit fuel w else Done w
    else Done w
  else Done w.

(** [for (unsigned int i = ...; i < NUM_SPHERES; i++)] with [n] iterations
    left. *)
Fixpoint renderSpheres_from (fuel : nat) (n : nat) (i : Z) (w : World)
  : result World :=
  match n with
  | O => Done w
  | S n' =>
      w1 <- renderSphere fuel i w ;;
      renderSpheres_from fuel n' (i + 1) w1
  end.

Definition renderSpheres (fuel : nat) (w : World) : result World :=
  renderSpheres_from fuel (Z.to_nat NUM_SPHERES) 0 w.

(** One call of [renderScene], for one eye. *)
Definition renderScene (fuel : nat) (f : Inputs) (w : World) : result World :=
  w1 <- startGame fuel f w ;;
  w2 <- gameOn f w1 ;;
  renderSpheres fuel w2.

(** [RiftApp::draw]: [renderScene] once per eye, left then right. *)
Definition draw (fuel : nat) (left right : Inputs) (w : World) : result World :=
  w1 <- renderScene fuel left w ;;
  renderScene fuel right w1.

(** The worlds the frame loop can be in between two calls of
    [renderScene]. *)
Inductive reachable : World -> Prop :=
| reachable_new : forall c s d rng, reachable (World_new c s d rng)
| reachable_step : forall fuel f w w',
    reachable w -> renderScene fuel f w = Done w' -> reachable w'.

End RenderScene.

(* ------------------------------------------------------------------ *)
(** ** Vocabulary of the properties *)

(** The [k]-th draw is the first one that differs from [selected]: the draw
    [random_Highlight] accepts. *)
Definition first_fresh (rng : nat -> N) (selected : Z) (k : nat) : Prop :=
  (forall j, (j < k)%nat -> random_number rng j = selected) /\
  random_number rng k <> selected.

(** What holds of the application object at every point of the frame loop
    outside [random_Highlight]: the score is a non-negative [int], a round in
    progress has a sphere selected, and no sphere is selected and the score
    is zero otherwise. *)
Definition target_inv (a : ExampleApp) : Prop :=
  0 <= score a <= INT_MAX /\
  if GameState a
  then 0 <= selectedSphere a < NUM_SPHERES
  else selectedSphere a = -1 /\ score a = 0.

(** Between two calls of [renderScene], moreover, no hit is pending in a
    round in progress. *)
Definition game_inv (a : ExampleApp) : Prop :=
  target_inv a /\ (GameState a = true -> collider a = false).

(** Number of rounds started and of rounds ended, as written to
    [std::cout]. *)
Definition is_start (m : Msg) : bool :=
  match m with GAME_START => true | _ => false end.
Definition is_over (m : Msg) : bool :=
  match m with GAME_OVER => true | _ => false end.
Definition rounds_started (out : list Msg) : nat := length (filter is_start out).
Definition rounds_ended (out : list Msg) : nat := length (filter is_over out).

(** Every round announced on [std::cout] has ended, except the one in
    progress. *)
Definition balanced (w : World) : Prop :=
  rounds_started (cout w) =
  (rounds_ended (cout w) + (if GameState (app w) then 1 else 0))%nat.

(** A query that failed, and the answer of a controller nobody touches. *)
Definition failed (q : Query) : Prop := OVR_SUCCESS (fst q) = false.
Definition no_input : ovrInputState := {| Buttons := 0; Touches := 0 |}.

(* ------------------------------------------------------------------ *)
(** ** A concrete session, for the examples *)

(** A clock of 1000 ticks per second, nobody holding X, the left hand at
    rest in the origin, and a random source that returns 0, 1, 2, ... *)
Definition ticks : Z := 1000.
Definition at_rest : ovrQuatf := Quatf f0 f0 f0 f1.
Definition origin : vec3 := Vec3 f0 f0 f0.
Definition far_right : vec3 := Vec3 (F32.of_Z 10) f0 f0.
Definition on_threshold : vec3 := Vec3 threshold f0 f0.

Definition hands (right : vec3) (h : ovrHandType) : ovrPosef :=
  match h with
  | ovrHand_Left => Posef at_rest origin
  | ovrHand_Right => Posef at_rest right
  end.

Definition answered (touches : Z) : Query :=
  (0, {| Buttons := 0; Touches := touches |}).

Definition call (right : vec3) (q : Query) (started now : Z) : Inputs :=
  {| HandPoses := hands right;
     grabQuery := q; startQuery := q; touchQuery := q;
     clock_at_start := started; clock_now := now |}.

Definition counting (i : nat) : N := N.of_nat i.

(** A fresh application; the trigger is touched far from the grid at tick
    1000 (sphere 0 is selected); the hand then touches sphere 0 at tick 2000
    (one point, sphere 1 is selected). *)
Definition world0 : World := World_new true 7 (F64.of_Z 0) counting.

Definition world1 : World :=
  {| app := {| GameState := true; selectedSphere := 0; collider := false;
               start := 1000; duration := F64.of_Z 0; score := 0 |};
     cout := [GAME_START];
     rand_src := fun i => counting (1 + i) |}.

Definition world2 : World :=
  {| app := {| GameState := true; selectedSphere := 1; collider := false;
               start := 1000; duration := F64.of_Z 1; score := 1 |};
     cout := [GAME_START; Collide_Your_Current_Score_is 1];
     rand_src := fun i => counting (2 + i) |}.

(** The centre of sphere 1: [(0.14f * 1, 0, 0)]. *)
Definition sphere1 : vec3 := Vec3 (F32.mul (F32.lit 14 100) (F32.of_Z 1)) f0 f0.

(** At tick 61000 of a round started at tick 1000, with one point scored and
    the hand on the selected sphere. *)
Definition last_call : Inputs := call sphere1 (answered 0x10) 5 61000.

(* ------------------------------------------------------------------ *)
(** ** The constructor of [ColorSphereScene] *)

(** [sphereScene->shaderID]: one of the two programs loaded by the
    constructor. *)
Inductive ShaderID : Type := highlightID | unhighlightID.

Section Scene.

Context {G : GLM}.

(** The body of the innermost loop: the two [push_back]. *)
Definition push_sphere (x y z : Z) (acc : list vec3 * list mat4)
  : list vec3 * list mat4 :=
  let relativePosition :=
    Vec3 (F32.mul (F32.lit 14 100) (F32.of_Z x))
         (F32.mul (F32.lit 14 100) (F32.of_Z y))
         (F32.mul (F32.lit 14 100) (F32.of_Z z)) in
  (fst acc ++ [relativePosition],
   snd acc ++ [translate (mat4_diag f1) relativePosition]).

(** The three nested loops, filling [spheres_positions] and
    [instance_positions] side by side. *)
Definition sphere_grid : list vec3 * list mat4 :=
  fold_left (fun acc z =>
    fold_left (fun acc y =>
      fold_left (fun acc x => push_sphere x y z acc) grid_axis acc)
      grid_axis acc)
    grid_axis ([], []).

Definition instance_positions : list mat4 := snd sphere_grid.

(** [instanceCount = instance_positions.size()] *)
Definition instanceCount : Z := Z.of_nat (length instance_positions).

End Scene.

(** The distance of [renderScene] without the grab transform: between two
    points as they are. *)
Definition distance (p q : vec3) : F32.t :=
  let dx := F32.sub (x3 p) (x3 q) in
  let dy := F32.sub (y3 p) (y3 q) in
  let dz := F32.sub (z3 p) (z3 q) in
  F32.sqrt (F32.add (F32.add (F32.mul dx dx) (F32.mul dy dy)) (F32.mul dz dz)).

(** The point of the grid at [(x, y, z)]. *)
Definition lattice_point (x y z : Z) : vec3 :=
  Vec3 (F32.mul (F32.lit 14 100) (F32.of_Z x))
       (F32.mul (F32.lit 14 100) (F32.of_Z y))
       (F32.mul (F32.lit 14 100) (F32.of_Z z)).

(** Whether the centre of sphere [j] is within reach of sphere [i]. *)
Definition centre_in_reach (i j : nat) : bool :=
  match nth_error spheres_positions i, nth_error spheres_positions j with
  | Some p, Some q => F32.ltb (distance p q) threshold
  | _, _ => false
  end.

(* ------------------------------------------------------------------ *)
(** ** The sphere loop with its draw calls *)

(** The state of the "Render Spheres Scene" loop once the shader is kept:
    the world, [sphereScene->shaderID], and the calls of
    [sphereScene->render] made so far, each with the index of the sphere and
    the shader it is drawn with. *)
Record Pass : Type := {
  world : World;
  shaderID : ShaderID;
  drawn : list (Z * ShaderID)
}.

(** One iteration: [highlight()] or [unhighlight()] as the game decides,
    then [sphereScene->render(..., i, ...)]. *)
Definition drawSphere (fuel : nat) (i : Z) (p : Pass) : result Pass :=
  s <- (if GameState (app (world p)) then
          if i =? to_unsigned (selectedSphere (app (world p))) then
            if collider (app (world p)) then
              w1 <- hit fuel (world p) ;; Done (w1, unhighlightID)
            else Done (world p, highlightID)
          else Done (world p, unhighlightID)
        else Done (world p, shaderID p)) ;;
  Done {| world := fst s; shaderID := snd s; drawn := drawn p ++ [(i, snd s)] |}.

Fixpoint drawSpheres_from (fuel : nat) (n : nat) (i : Z) (p : Pass) : result Pass :=
  match n with
  | O => Done p
  | S n' =>
      p1 <- drawSphere fuel i p ;;
      drawSpheres_from fuel n' (i + 1) p1
  end.

Definition drawSpheres (fuel : nat) (p : Pass) : result Pass :=
  drawSpheres_from fuel (Z.to_nat NUM_SPHERES) 0 p.

(** The indices [i], [i + 1], ... of [n] consecutive iterations. *)
Definition indices (i : Z) (n : nat) : list Z :=
  map (fun k => i + Z.of_nat k) (seq 0 n).

Section Drawing.

Context {G : GLM}.
Variable CLOCKS_PER_SEC : Z.

(** One call of [renderScene] with the draw calls of its sphere loop:
    [shader] is [sphereScene->shaderID] as the previous call left it. *)
Definition renderScene_drawing (fuel : nat) (f : Inputs) (w : World)
    (shader : ShaderID) : result Pass :=
  w1 <- startGame fuel f w ;;
  w2 <- gameOn CLOCKS_PER_SEC f w1 ;;
  drawSpheres fuel {| world := w2; shaderID := shader; drawn := [] |}.

End Drawing.

(** All the spheres, in the order of the loop. *)
Definition all_spheres : list Z := indices 0 (Z.to_nat NUM_SPHERES).

(** The shader of sphere [k] in a round with target [selected] and no hit
    pending. *)
Definition shader_of (selected k : Z) : ShaderID :=
  if k =? selected then highlightID else unhighlightID.

(** The shader of sphere [k] in the pass that scores on sphere [old] and
    selects sphere [new]. *)
Definition shader_after_hit (old new k : Z) : ShaderID :=
  if (k =? new) && (old <? k) then highlightID else unhighlightID.

(* ------------------------------------------------------------------ *)
(** ** Reading the console *)

(** What a reader of [std::cout] knows after each line: whether a round is
    in progress and its score.  A line that cannot follow is [None]. *)
Fixpoint replay (active : bool) (points : Z) (out : list Msg) : option (bool * Z) :=
  match out with
  | [] => Some (active, points)
  | GAME_START :: rest =>
      if active then None else replay true 0 rest
  | Collide_Your_Current_Score_is n :: rest =>
      if active && (n =? points + 1) then replay true n rest else None
  | GAME_OVER :: Your_Final_Score_is n :: rest =>
      if active && (n =? points) then replay false 0 rest else None
  | _ => None
  end.

(** The console of a world replays to its state. *)
Definition logged (w : World) : Prop :=
  replay false 0 (cout w) = Some (GameState (app w), score (app w)).

(* ------------------------------------------------------------------ *)
(** ** [GlfwApp::run]: the frame loop *)

(** What [glfwPollEvents] can deliver: a key (to [KeyCallback]), a mouse
    button (to [MouseButtonCallback], whose handler is empty), or the user
    closing the window, upon which GLFW raises the close flag itself. *)
Inductive Event : Type :=
| KeyEvent (key scancode action mods : Z)
| MouseButtonEvent (button action mods : Z)
| CloseRequest.

(** What one iteration of the loop obtains from its environment: the events
    polled, and the inputs of the two calls of [renderScene]. *)
Record Frame : Type := {
  events : list Event;
  left_eye : Inputs;
  right_eye : Inputs
}.

(** The program state between two iterations: the game, the close flag of
    the window, [frame], and how often the tracking origin was recentred. *)
Record App : Type := {
  game : World;
  shouldClose : Z;
  frame : Z;
  recentred : nat
}.

(** The effect of a host call made by a key handler. *)
Definition perform (a : App) (c : HostCall) : App :=
  match c with
  | glfwSetWindowShouldClose value =>
      {| game := game a; shouldClose := value; frame := frame a;
         recentred := recentred a |}
  | ovr_RecenterTrackingOrigin =>
      {| game := game a; shouldClose := shouldClose a; frame := frame a;
         recentred := S (recentred a) |}
  end.

Definition deliver (a : App) (e : Event) : App :=
  match e with
  | KeyEvent key scancode action mods =>
      fold_left perform (KeyCallback key scancode action mods) a
  | MouseButtonEvent _ _ _ => a
  | CloseRequest =>
      {| game := game a; shouldClose := 1; frame := frame a;
         recentred := recentred a |}
  end.

(** [glfwPollEvents()] *)
Definition glfwPollEvents (evs : list Event) (a : App) : App :=
  fold_left deliver evs a.

Section FrameLoop.

Context {G : GLM}.
Variable CLOCKS_PER_SEC : Z.

(** The body of the loop: [++frame; glfwPollEvents(); update(); draw();
    finishFrame();], where [update] is empty and [finishFrame] swaps the
    buffers. *)
Definition iteration (fuel : nat) (fr : Frame) (a : App) : result App :=
  let a1 := {| game := game a; shouldClose := shouldClose a;
               frame := to_unsigned (frame a + 1); recentred := recentred a |} in
  let a2 := glfwPollEvents (events fr) a1 in
  g <- draw CLOCKS_PER_SEC fuel (left_eye fr) (right_eye fr) (game a2) ;;
  Done {| game := g; shouldClose := shouldClose a2; frame := frame a2;
          recentred := recentred a2 |}.

(** [while (!glfwWindowShouldClose(window)) { ... }] over the frames the
    environment provides: the loop has exited ([true]) or waits for the next
    frame ([false]). *)
Fixpoint frameLoop (fuel : nat) (frames : list Frame) (a : App)
  : result (bool * App) :=
  if shouldClose a =? 0 then
    match frames with
    | [] => Done (false, a)
    | fr :: rest =>
        a1 <- iteration fuel fr a ;;
        frameLoop fuel rest a1
    end
  else Done (true, a).

End FrameLoop.

(** An event that raises the close flag: a press of escape, or the user
    closing the window. *)
Definition closes (e : Event) : bool :=
  match e with
  | KeyEvent key _ action _ => (action =? GLFW_PRESS) && (key =? GLFW_KEY_ESCAPE)
  | MouseButtonEvent _ _ _ => false
  | CloseRequest => true
  end.

(** A press of R. *)
Definition recentres (e : Event) : bool :=
  match e with
  | KeyEvent key _ action _ => (action =? GLFW_PRESS) && (key =? GLFW_KEY_R)
  | _ => false
  end.

(* ------------------------------------------------------------------ *)
(** ** [main] up to the frame loop: setting up *)

(** Constants of glfw3.h and of the C library. *)
Definition GLFW_DEPTH_BITS : Z := 0x00021005.
Definition GLFW_CONTEXT_VERSION_MAJOR : Z := 0x00022002.
Definition GLFW_CONTEXT_VERSION_MINOR : Z := 0x00022003.
Definition GLFW_OPENGL_DEBUG_CONTEXT : Z := 0x00022007.
Definition GLFW_OPENGL_PROFILE : Z := 0x00022008.
Definition GLFW_OPENGL_CORE_PROFILE : Z := 0x00032001.
Definition INT_MIN : Z := - 2 ^ 31.

(** The calls into GLFW that set-up makes, with the arguments that are
    numbers ([glfwCreateWindow] gets [_mirrorSize], the title and two null
    pointers; the three setters get the window and a pointer). *)
Inductive GlfwCall : Type :=
| Init
| WindowHint (hint value : Z)
| CreateWindow
| SetWindowPos (xpos ypos : Z)
| SetWindowUserPointer
| SetKeyCallback
| SetMouseButtonCallback
| MakeContextCurrent
| SwapInterval (interval : Z).

(** What the host libraries do during set-up: the values returned by the
    calls whose result the program checks, and, for every call into GLFW,
    the error GLFW reports while it runs, if any, as the code and the
    description it hands to the error callback. *)
Record Host : Type := {
  ovr_Initialize : ovrResult;
  glfwInit : Z;
  ovr_Create : ovrResult;
  glfwCreateWindow : Z;
  glewInit : Z;
  ovr_CreateTextureSwapChainGL : ovrResult;
  ovr_GetTextureSwapChainLength : ovrResult * Z;
  ovr_CreateMirrorTextureGL : ovrResult;
  glfwError : GlfwCall -> option (Z * String.string)
}.

(** The text of a [std::runtime_error]: one of the eight literals given to
    [FAIL], or the description [ErrorCallback] was called with. *)
Inductive Failure : Type :=
| Failed_to_initialize_the_Oculus_SDK
| Failed_to_initialize_GLFW
| Unable_to_create_HMD_session
| Unable_to_create_rendering_window
| Failed_to_initialize_GLEW
| Failed_to_create_swap_textures
| Unable_to_count_swap_chain_textures
| Could_not_create_mirror_texture
| Description (description : String.string).

(** How a piece of the set-up ends: it goes on with a value, [main]
    returns a code, or a [std::runtime_error] leaves [main]. *)
Inductive Setup (A : Type) : Type :=
| Ready (a : A)
| Exit (code : Z)
| Throw (what : Failure).

Arguments Ready {A} a.
Arguments Exit {A} code.
Arguments Throw {A} what.

(** What GLFW remembers of the program during set-up: whether
    [ErrorCallback] is its error callback.  It starts with none. *)
Record Glfw : Type := { errorCallback : bool }.

(** A piece of the set-up runs on GLFW's state. *)
Definition Step (A : Type) : Type := Glfw -> Setup (A * Glfw).

Definition ready {A : Type} (a : A) : Step A := fun g => Ready (a, g).

Definition and_then {A B : Type} (s : Step A) (k : A -> Step B) : Step B :=
  fun g =>
    match s g with
    | Ready (a, g1) => k a g1
    | Exit code => Exit code
    | Throw what => Throw what
    end.

(** [FAIL(what)], [return code;] from [main], and [if (bad) FAIL(what);] *)
Definition FAIL {A : Type} (what : Failure) : Step A := fun _ => Throw what.

Definition leave {A : Type} (code : Z) : Step A := fun _ => Exit code.

Definition FAIL_if (bad : bool) (what : Failure) : Step unit :=
  if bad then FAIL what else ready tt.

(** [GlfwApp::ErrorCallback] *)
Definition ErrorCallback {A : Type} (error : Z) (description : String.string)
  : Step A :=
  FAIL (Description description).

(** [glfwSetErrorCallback(ErrorCallback)] *)
Definition glfwSetErrorCallback : Step unit :=
  fun _ => Ready (tt, {| errorCallback := true |}).

(** A call into GLFW: when GLFW reports an error while it runs, it calls
    the error callback, if one is set. *)
Definition glfw_call (h : Host) (c : GlfwCall) : Step unit :=
  fun g =>
    match glfwError h c with
    | Some (error, description) =>
        if errorCallback g then ErrorCallback error description g
        else Ready (tt, g)
    | None => Ready (tt, g)
    end.

(** [GlfwApp()], [RiftManagerApp()]: the base classes of [RiftApp], in the
    order of their declaration.  The bodies of [RiftApp()] and
    [ExampleApp()] call neither [FAIL] nor GLFW. *)
Definition GlfwApp_new (h : Host) : Step unit :=
  and_then (glfw_call h Init) (fun _ =>
  and_then (FAIL_if (glfwInit h =? 0) Failed_to_initialize_GLFW) (fun _ =>
  glfwSetErrorCallback)).

Definition RiftManagerApp_new (h : Host) : Step unit :=
  FAIL_if (negb (OVR_SUCCESS (ovr_Create h))) Unable_to_create_HMD_session.

(** [GlfwApp::preCreate] *)
Definition preCreate (h : Host) : Step unit :=
  and_then (glfw_call h (WindowHint GLFW_DEPTH_BITS 16)) (fun _ =>
  and_then (glfw_call h (WindowHint GLFW_CONTEXT_VERSION_MAJOR 4)) (fun _ =>
  and_then (glfw_call h (WindowHint GLFW_CONTEXT_VERSION_MINOR 1)) (fun _ =>
  and_then (glfw_call h (WindowHint GLFW_OPENGL_PROFILE GLFW_OPENGL_CORE_PROFILE))
           (fun _ =>
  glfw_call h (WindowHint GLFW_OPENGL_DEBUG_CONTEXT 1))))).

(** [glfw::createWindow]: the window, or an exception. *)
Definition createWindow (h : Host) (position_x position_y : Z) : Step Z :=
  and_then (glfw_call h CreateWindow) (fun _ =>
  let window := glfwCreateWindow h in
  and_then (FAIL_if (window =? 0) Unable_to_create_rendering_window) (fun _ =>
  and_then (if (INT_MIN <? position_x) && (INT_MIN <? position_y)
            then glfw_call h (SetWindowPos position_x position_y)
            else ready tt) (fun _ =>
  ready window))).

(** [RiftApp::createRenderingTarget]: the position is left at its default,
    [ivec2(INT_MIN)]. *)
Definition createRenderingTarget (h : Host) : Step Z :=
  createWindow h INT_MIN INT_MIN.

(** [GlfwApp::postCreate] *)
Definition postCreate (h : Host) : Step unit :=
  and_then (glfw_call h SetWindowUserPointer) (fun _ =>
  and_then (glfw_call h SetKeyCallback) (fun _ =>
  and_then (glfw_call h SetMouseButtonCallback) (fun _ =>
  and_then (glfw_call h MakeContextCurrent) (fun _ =>
  FAIL_if (negb (0 =? glewInit h)) Failed_to_initialize_GLEW)))).

(** [RiftApp::initGl] *)
Definition RiftApp_initGl (h : Host) : Step unit :=
  and_then (glfw_call h (SwapInterval 0)) (fun _ =>
  and_then (FAIL_if (negb (OVR_SUCCESS (ovr_CreateTextureSwapChainGL h)))
                    Failed_to_create_swap_textures) (fun _ =>
  and_then (FAIL_if (negb (OVR_SUCCESS (fst (ovr_GetTextureSwapChainLength h)))
                     || (snd (ovr_GetTextureSwapChainLength h) =? 0))
                    Unable_to_count_swap_chain_textures) (fun _ =>
  FAIL_if (negb (OVR_SUCCESS (ovr_CreateMirrorTextureGL h)))
          Could_not_create_mirror_texture))).

(** [GlfwApp::run] up to the end of [RiftApp::initGl]: the window the loop
    will run on. *)
Definition run_setup (h : Host) : Step Z :=
  and_then (preCreate h) (fun _ =>
  and_then (createRenderingTarget h) (fun window =>
  if window =? 0 then leave (-1)
  else
    and_then (postCreate h) (fun _ =>
    and_then (RiftApp_initGl h) (fun _ =>
    ready window)))).

(** [main] up to the same point, from a GLFW with no error callback. *)
Definition main_setup (h : Host) : Setup Z :=
  match
    and_then (FAIL_if (negb (OVR_SUCCESS (ovr_Initialize h)))
                      Failed_to_initialize_the_Oculus_SDK) (fun _ =>
    and_then (GlfwApp_new h) (fun _ =>
    and_then (RiftManagerApp_new h) (fun _ =>
    run_setup h)))
      {| errorCallback := false |}
  with
  | Ready (window, _) => Ready window
  | Exit code => Exit code
  | Throw what => Throw what
  end.

(** The calls into GLFW that set-up makes once the error callback is set,
    in their order. *)
Definition calls_after_glfwSetErrorCallback : list GlfwCall :=
  [ WindowHint GLFW_DEPTH_BITS 16;
    WindowHint GLFW_CONTEXT_VERSION_MAJOR 4;
    WindowHint GLFW_CONTEXT_VERSION_MINOR 1;
    WindowHint GLFW_OPENGL_PROFILE GLFW_OPENGL_CORE_PROFILE;
    WindowHint GLFW_OPENGL_DEBUG_CONTEXT 1;
    CreateWindow;
    SetWindowUserPointer;
    SetKeyCallback;
    SetMouseButtonCallback;
    MakeContextCurrent;
    SwapInterval 0 ].

Definition quiet_during (h : Host) (c : GlfwCall) : bool :=
  match glfwError h c with
  | Some _ => false
  | None => true
  end.

(** Every checked answer is a success, and GLFW reports no error during
    the calls made once the error callback is set. *)
Definition all_well (h : Host) : bool :=
  OVR_SUCCESS (ovr_Initialize h)
  && negb (glfwInit h =? 0)
  && OVR_SUCCESS (ovr_Create h)
  && negb (glfwCreateWindow h =? 0)
  && (glewInit h =? 0)
  && OVR_SUCCESS (ovr_CreateTextureSwapChainGL h)
  && OVR_SUCCESS (fst (ovr_GetTextureSwapChainLength h))
  && negb (snd (ovr_GetTextureSwapChainLength h) =? 0)
  && OVR_SUCCESS (ovr_CreateMirrorTextureGL h)
  && forallb (quiet_during h) calls_after_glfwSetErrorCallback.

(* ------------------------------------------------------------------ *)
(** ** [namespace ovr]: conversions between the runtime's types and GLM's *)

(** The conversion of an [unsigned int] to [int] (modular, as on every
    target of the runtime). *)
Definition to_signed (u : Z) : Z := if u <? 2 ^ 31 then u else u - 2 ^ 32.

(** [ovrSizei], [glm::uvec2] and [ovrRecti]. *)
Record ovrSizei : Type := Sizei { Size_w : Z; Size_h : Z }.
Record uvec2 : Type := Uvec2 { ux : Z; uy : Z }.
Record ovrRecti : Type := Recti { Pos_x : Z; Pos_y : Z; Size : ovrSizei }.

(** [ovrMatrix4f]: [float M[4][4]], row by row. *)
Record ovrMatrix4f : Type := Matrix4f { M0 : vec4; M1 : vec4; M2 : vec4; M3 : vec4 }.

Module ovr.

(** The sixteen floats behind [&om.M[0][0]], in memory order. *)
Definition floats_of_vec4 (v : vec4) : list F32.t := [x4 v; y4 v; z4 v; w4 v].
Definition floats_of_ovrMatrix4f (om : ovrMatrix4f) : list F32.t :=
  floats_of_vec4 (M0 om) ++ floats_of_vec4 (M1 om) ++
  floats_of_vec4 (M2 om) ++ floats_of_vec4 (M3 om).

(** The sixteen floats behind [&m[0][0]]: GLM stores column by column. *)
Definition floats_of_mat4 (m : Glm098.mat) : list F32.t :=
  floats_of_vec4 (Glm098.c0 m) ++ floats_of_vec4 (Glm098.c1 m) ++
  floats_of_vec4 (Glm098.c2 m) ++ floats_of_vec4 (Glm098.c3 m).

Definition float_at (mem : list F32.t) (k : nat) : F32.t := nth k mem Glm098.zero.

Definition vec4_at (mem : list F32.t) (k : nat) : vec4 :=
  Vec4 (float_at mem k) (float_at mem (k + 1)) (float_at mem (k + 2))
       (float_at mem (k + 3)).

(** [glm::make_mat4(ptr)]: sixteen floats copied into the columns. *)
Definition make_mat4 (mem : list F32.t) : Glm098.mat :=
  Glm098.Mat (vec4_at mem 0) (vec4_at mem 4) (vec4_at mem 8) (vec4_at mem 12).

(** [glm::transpose(m)] *)
Definition transpose (m : Glm098.mat) : Glm098.mat :=
  let a := Glm098.c0 m in let b := Glm098.c1 m in
  let c := Glm098.c2 m in let d := Glm098.c3 m in
  Glm098.Mat (Vec4 (x4 a) (x4 b) (x4 c) (x4 d))
             (Vec4 (y4 a) (y4 b) (y4 c) (y4 d))
             (Vec4 (z4 a) (z4 b) (z4 c) (z4 d))
             (Vec4 (w4 a) (w4 b) (w4 c) (w4 d)).

(** [inline mat4 toGlm(const ovrMatrix4f& om)] *)
Definition toGlm_Matrix4f (om : ovrMatrix4f) : Glm098.mat :=
  transpose (make_mat4 (floats_of_ovrMatrix4f om)).

(** [inline ovrMatrix4f fromGlm(const mat4& m)]: the [memcpy] of the
    transposed matrix into [result.M]. *)
Definition fromGlm_mat4 (m : Glm098.mat) : ovrMatrix4f :=
  let mem := floats_of_mat4 (transpose m) in
  Matrix4f (vec4_at mem 0) (vec4_at mem 4) (vec4_at mem 8) (vec4_at mem 12).

(** [inline uvec2 toGlm(const ovrSizei& ov)] *)
Definition toGlm_Sizei (ov : ovrSizei) : uvec2 :=
  Uvec2 (to_unsigned (Size_w ov)) (to_unsigned (Size_h ov)).

(** [inline ovrSizei fromGlm(const uvec2& v)] *)
Definition fromGlm_uvec2 (v : uvec2) : ovrSizei :=
  Sizei (to_signed (ux v)) (to_signed (uy v)).

End ovr.

(** [m[c][r]] on a [glm::mat4] and [om.M[r][c]] on an [ovrMatrix4f], for
    indices below four. *)
Definition component (v : vec4) (k : nat) : F32.t :=
  match k with
  | 0%nat => x4 v | 1%nat => y4 v | 2%nat => z4 v | _ => w4 v
  end.
Definition column (m : Glm098.mat) (c : nat) : vec4 :=
  match c with
  | 0%nat => Glm098.c0 m | 1%nat => Glm098.c1 m | 2%nat => Glm098.c2 m
  | _ => Glm098.c3 m
  end.
Definition row (om : ovrMatrix4f) (r : nat) : vec4 :=
  match r with
  | 0%nat => M0 om | 1%nat => M1 om | 2%nat => M2 om | _ => M3 om
  end.

(* ------------------------------------------------------------------ *)
(** ** The constructor of [RiftApp]: the layout of the render target *)

(** The body of the [for_each_eye] lambda, as far as sizes go: the eye's
    viewport starts at the current width of the target, which then grows by
    the eye's width and to the eye's height. *)
Definition place_eye (eyeSize : ovrSizei) (renderTargetSize : uvec2)
  : ovrRecti * uvec2 :=
  (Recti (to_signed (ux renderTargetSize)) 0 eyeSize,
   Uvec2 (to_unsigned (ux renderTargetSize + to_unsigned (Size_w eyeSize)))
         (Z.max (uy renderTargetSize) (to_unsigned (Size_h eyeSize)))).

Record Layout : Type := {
  Viewport_Left : ovrRecti;
  Viewport_Right : ovrRecti;
  renderTargetSize : uvec2;
  mirrorSize : uvec2
}.

(** [size0] is [_renderTargetSize] as [uvec2]'s default constructor leaves
    it; the eyes are visited left, then right; the mirror window has a
    quarter of the resolution. *)
Definition RiftApp_layout (size0 : uvec2) (leftSize rightSize : ovrSizei) : Layout :=
  let (vl, s1) := place_eye leftSize size0 in
  let (vr, s2) := place_eye rightSize s1 in
  {| Viewport_Left := vl;
     Viewport_Right := vr;
     renderTargetSize := s2;
     mirrorSize := Uvec2 (ux s2 / 4) (uy s2 / 4) |}.

(* ------------------------------------------------------------------ *)
(** ** Concrete frames, hosts and sizes, for the examples *)

(** Nobody touches anything, far from the grid. *)
Definition quiet : Inputs := call far_right (answered 0) 0 0.

Definition frame_R : Frame :=
  {| events := [KeyEvent GLFW_KEY_R 0 GLFW_PRESS 0; MouseButtonEvent 0 1 0];
     left_eye := quiet; right_eye := quiet |}.

Definition frame_quiet : Frame :=
  {| events := []; left_eye := quiet; right_eye := quiet |}.

Definition frame_escape : Frame :=
  {| events := [KeyEvent GLFW_KEY_ESCAPE 0 GLFW_PRESS 0];
     left_eye := quiet; right_eye := quiet |}.

Definition app0 : App :=
  {| game := world0; shouldClose := 0; frame := 0; recentred := 0 |}.

(** A host on which everything works although GLFW reports an error
    during [glfwInit], one whose swap chain is empty, and one on which GLFW
    reports an error while it creates the window. *)
Definition format_unavailable : Z * String.string :=
  (0x00010009, "The requested format is unavailable"%string).

Definition good_host : Host :=
  {| ovr_Initialize := 0; glfwInit := 1; ovr_Create := 0;
     glfwCreateWindow := 4096; glewInit := 0;
     ovr_CreateTextureSwapChainGL := 0;
     ovr_GetTextureSwapChainLength := (0, 3);
     ovr_CreateMirrorTextureGL := 0;
     glfwError := fun c => match c with
                           | Init => Some format_unavailable
                           | _ => None
                           end |}.

Definition empty_chain_host : Host :=
  {| ovr_Initialize := 0; glfwInit := 1; ovr_Create := 0;
     glfwCreateWindow := 4096; glewInit := 0;
     ovr_CreateTextureSwapChainGL := 0;
     ovr_GetTextureSwapChainLength := (0, 0);
     ovr_CreateMirrorTextureGL := 0;
     glfwError := fun _ => None |}.

Definition no_window_host : Host :=
  {| ovr_Initialize := 0; glfwInit := 1; ovr_Create := 0;
     glfwCreateWindow := 0; glewInit := 0;
     ovr_CreateTextureSwapChainGL := 0;
     ovr_GetTextureSwapChainLength := (0, 3);
     ovr_CreateMirrorTextureGL := 0;
     glfwError := fun c => match c with
                           | CreateWindow => Some format_unavailable
                           | _ => None
                           end |}.

Definition eye_size : ovrSizei := Sizei 1344 1600.

Definition counting_matrix : ovrMatrix4f :=
  Matrix4f (Vec4 (F32.of_Z 1) (F32.of_Z 2) (F32.of_Z 3) (F32.of_Z 4))
           (Vec4 (F32.of_Z 5) (F32.of_Z 6) (F32.of_Z 7) (F32.of_Z 8))
           (Vec4 (F32.of_Z 9) (F32.of_Z 10) (F32.of_Z 11) (F32.of_Z 12))
           (Vec4 (F32.of_Z 13) (F32.of_Z 14) (F32.of_Z 15) (F32.of_Z 16)).

(** The pass of a call in the round of [world1] that touches nothing, the
    world after the call that ends that round, and the applications two
    frame loops end in. *)
Definition pass1 : Pass :=
  Eval vm_compute in
    match renderScene_drawing ticks 0 (call far_right (answered 0x10) 5 2000)
                              world1 highlightID with
    | Done p => p
    | _ => {| world := world1; shaderID := highlightID; drawn := [] |}
    end.

Definition world_over : World :=
  Eval vm_compute in
    match renderScene ticks 0 (call far_right (answered 0x10) 5 61000)
                      (world pass1) with
    | Done w => w
    | _ => world pass1
    end.

Definition app_two_frames : App :=
  Eval vm_compute in
    match frameLoop ticks 0 [frame_R; frame_quiet] app0 with
    | Done (_, a) => a
    | _ => app0
    end.

Definition app_escaped : App :=
  Eval vm_compute in
    match frameLoop ticks 0 [frame_R; frame_escape; frame_quiet] app0 with
    | Done (_, a) => a
    | _ => app0
    end.

(* ------------------------------------------------------------------ *)
(** ** Lemmas on [random_Highlight] *)

Lemma bind_Done : forall (A B : Type) (a : A) (k : A -> result B),
  bind (Done a) k = k a.
Proof. reflexivity. Qed.

Lemma random_number_range : forall rng n, 0 <= random_number rng n < NUM_SPHERES.
Proof.
  intros rng n. unfold random_number, NUM_SPHERES.
  assert (H : 0 <= Z.of_N (rng n)) by apply N2Z.is_nonneg.
  pose proof (Z.rem_bound_pos (Z.of_N (rng n)) 125 H ltac:(lia)). lia.
Qed.

Lemma redraw_done : forall fuel rng n selected r m,
  redraw fuel rng n selected = Done (r, m) ->
  exists k, m = S (n + k) /\ r = random_number rng (n + k) /\
            r <> selected /\
            forall j, (j < k)%nat -> random_number rng (n + j) = selected.
Proof.
  induction fuel as [|fuel IH]; intros rng n selected r m H; simpl in H.
  - destruct (random_number rng n =? selected) eqn:E; [discriminate|].
    injection H as <- <-. exists 0%nat. rewrite Nat.add_0_r.
    apply Z.eqb_neq in E. repeat split; auto. intros j Hj. lia.
  - destruct (random_number rng n =? selected) eqn:E.
    + apply IH in H. destruct H as (k & -> & -> & Hne & Hall).
      exists (S k). rewrite <- !Nat.add_succ_comm. repeat split; auto.
      intros [|j] Hj.
      * rewrite Nat.add_0_r. now apply Z.eqb_eq.
      * rewrite <- Nat.add_succ_comm. apply Hall. lia.
    + injection H as <- <-. exists 0%nat. rewrite Nat.add_0_r.
      apply Z.eqb_neq in E. repeat split; auto. intros j Hj. lia.
Qed.

Lemma redraw_fresh : forall k fuel rng n selected,
  (forall j, (j < k)%nat -> random_number rng (n + j) = selected) ->
  random_number rng (n + k) <> selected ->
  (k <= fuel)%nat ->
  redraw fuel rng n selected = Done (random_number rng (n + k), S (n + k)).
Proof.
  induction k as [|k IH]; intros fuel rng n selected Hall Hne Hfuel.
  - rewrite Nat.add_0_r in *. apply Z.eqb_neq in Hne.
    destruct fuel; simpl; rewrite Hne; reflexivity.
  - destruct fuel as [|fuel]; [lia|]. simpl.
    pose proof (Hall 0%nat ltac:(lia)) as H0. rewrite Nat.add_0_r in H0.
    apply Z.eqb_eq in H0. rewrite H0.
    rewrite <- Nat.add_succ_comm in *. apply IH; [|assumption|lia].
    intros j Hj. rewrite Nat.add_succ_comm. apply Hall. lia.
Qed.

Lemma random_Highlight_done : forall fuel w w',
  random_Highlight fuel w = Done w' ->
  exists k, first_fresh (rand_src w) (selectedSphere (app w)) k /\
    w' = {| app := {| GameState := GameState (app w);
                      selectedSphere := random_number (rand_src w) k;
                      collider := false;
                      start := start (app w);
                      duration := duration (app w);
                      score := score (app w) |};
            cout := cout w;
            rand_src := fun i => rand_src w (S k + i)%nat |}.
Proof.
  intros fuel w w' H. unfold random_Highlight in H.
  destruct (redraw fuel (rand_src w) 0 (selectedSphere (app w))) as [[r m]| |] eqn:E;
    simpl in H; try discriminate.
  apply redraw_done in E. destruct E as (k & -> & -> & Hne & Hall).
  simpl in *. injection H as <-. exists k. split; [split; assumption|reflexivity].
Qed.

(** The fuel only bounds the search: the accepted draw does not depend on
    it. *)
Lemma redraw_more_fuel : forall fuel fuel' rng n selected p,
  redraw fuel rng n selected = Done p ->
  (fuel <= fuel')%nat ->
  redraw fuel' rng n selected = Done p.
Proof.
  induction fuel as [|fuel IH]; intros fuel' rng n selected p H Hle; simpl in H.
  - destruct (random_number rng n =? selected) eqn:E; [discriminate|].
    destruct fuel'; simpl; now rewrite E.
  - destruct fuel' as [|fuel']; [lia|]. simpl.
    destruct (random_number rng n =? selected); [|exact H].
    apply (IH fuel' _ _ _ _ H). lia.
Qed.

Lemma random_Highlight_more_fuel : forall fuel fuel' w w',
  random_Highlight fuel w = Done w' ->
  (fuel <= fuel')%nat ->
  random_Highlight fuel' w = Done w'.
Proof.
  intros fuel fuel' w w' H Hle. unfold random_Highlight in *.
  destruct (redraw fuel (rand_src w) 0 (selectedSphere (app w))) as [p| |] eqn:E;
    try discriminate H.
  now rewrite (redraw_more_fuel _ _ _ E Hle).
Qed.

Lemma random_Highlight_fresh : forall k fuel w,
  first_fresh (rand_src w) (selectedSphere (app w)) k ->
  (k <= fuel)%nat ->
  random_Highlight fuel w =
    Done {| app := {| GameState := GameState (app w);
                      selectedSphere := random_number (rand_src w) k;
                      collider := false;
                      start := start (app w);
                      duration := duration (app w);
                      score := score (app w) |};
            cout := cout w;
            rand_src := fun i => rand_src w (S k + i)%nat |}.
Proof.
  intros k fuel w [Hall Hne] Hfuel. unfold random_Highlight.
  rewrite (@redraw_fresh k fuel (rand_src w) 0%nat (selectedSphere (app w)));
    auto.
Qed.

(* ------------------------------------------------------------------ *)
(** ** Lemmas on the sphere loop *)

Lemma spheres_positions_length : length spheres_positions = 125%nat.
Proof. reflexivity. Qed.

Lemma vector_at_spheres : forall i,
  0 <= i < NUM_SPHERES <-> exists pos, vector_at spheres_positions i = Some pos.
Proof.
  intros i. unfold vector_at, NUM_SPHERES. split.
  - intros Hi. destruct (i <? 0) eqn:E; [apply Z.ltb_lt in E; lia|].
    destruct (nth_error spheres_positions (Z.to_nat i)) as [pos|] eqn:N.
    + now exists pos.
    + apply nth_error_None in N. rewrite spheres_positions_length in N. lia.
  - intros [pos H]. destruct (i <? 0) eqn:E; [discriminate|].
    apply Z.ltb_ge in E.
    assert (N : nth_error spheres_positions (Z.to_nat i) <> None) by congruence.
    apply nth_error_Some in N. rewrite spheres_positions_length in N. lia.
Qed.

(** From here on the grid is used through the two lemmas above. *)
Opaque spheres_positions.

Lemma renderSpheres_from_calm : forall fuel n i w,
  GameState (app w) = false \/ collider (app w) = false ->
  renderSpheres_from fuel n i w = Done w.
Proof.
  induction n as [|n IH]; intros i w H; simpl; [reflexivity|].
  assert (E : renderSphere fuel i w = Done w).
  { unfold renderSphere. destruct H as [-> | ->]; [reflexivity|].
    destruct (GameState (app w)); [|reflexivity].
    destruct (i =? to_unsigned (selectedSphere (app w))); reflexivity. }
  rewrite E. simpl. now apply IH.
Qed.

Lemma hit_done : forall fuel w w',
  hit fuel w = Done w' ->
  exists k, first_fresh (rand_src w) (selectedSphere (app w)) k /\
    score (app w) < INT_MAX /\
    w' = {| app := {| GameState := GameState (app w);
                      selectedSphere := random_number (rand_src w) k;
                      collider := false;
                      start := start (app w);
                      duration := duration (app w);
                      score := score (app w) + 1 |};
            cout := cout w ++ [Collide_Your_Current_Score_is (score (app w) + 1)];
            rand_src := fun i => rand_src w (S k + i)%nat |}.
Proof.
  intros fuel w w' H. unfold hit in H.
  destruct (random_Highlight fuel w) as [w1| |] eqn:E; simpl in H; try discriminate.
  apply random_Highlight_done in E. destruct E as (k & Hk & ->).
  unfold increment_score in H. simpl in H.
  destruct (score (app w) <? INT_MAX) eqn:S; simpl in H; [|discriminate].
  apply Z.ltb_lt in S. injection H as <-. exists k. auto.
Qed.

Lemma hit_fresh : forall k fuel w,
  first_fresh (rand_src w) (selectedSphere (app w)) k ->
  (k <= fuel)%nat ->
  score (app w) < INT_MAX ->
  hit fuel w =
    Done {| app := {| GameState := GameState (app w);
                      selectedSphere := random_number (rand_src w) k;
                      collider := false;
                      start := start (app w);
                      duration := duration (app w);
                      score := score (app w) + 1 |};
            cout := cout w ++ [Collide_Your_Current_Score_is (score (app w) + 1)];
            rand_src := fun i => rand_src w (S k + i)%nat |}.
Proof.
  intros k fuel w Hk Hfuel Hs. unfold hit.
  rewrite (random_Highlight_fresh w Hk Hfuel). simpl.
  unfold increment_score. simpl.
  apply Z.ltb_lt in Hs. rewrite Hs. reflexivity.
Qed.

Lemma to_unsigned_index : forall i, 0 <= i < NUM_SPHERES -> to_unsigned i = i.
Proof.
  intros i Hi. unfold to_unsigned, NUM_SPHERES in *. apply Z.mod_small. lia.
Qed.

Lemma renderSpheres_from_hit : forall fuel n i w,
  GameState (app w) = true ->
  collider (app w) = true ->
  0 <= selectedSphere (app w) < NUM_SPHERES ->
  i <= selectedSphere (app w) < i + Z.of_nat n ->
  renderSpheres_from fuel n i w = hit fuel w.
Proof.
  induction n as [|n IH]; intros i w Hg Hc Hr Hi; [lia|].
  simpl. unfold renderSphere. rewrite Hg, Hc, (to_unsigned_index Hr).
  destruct (i =? selectedSphere (app w)) eqn:E.
  - destruct (hit fuel w) as [w1| |] eqn:Hh; simpl; try reflexivity.
    apply renderSpheres_from_calm. right.
    apply hit_done in Hh. destruct Hh as (k & _ & _ & ->). reflexivity.
  - simpl. apply Z.eqb_neq in E. apply IH; auto. lia.
Qed.

Lemma renderSpheres_calm : forall fuel w,
  GameState (app w) = false \/ collider (app w) = false ->
  renderSpheres fuel w = Done w.
Proof. intros. now apply renderSpheres_from_calm. Qed.

Lemma renderSpheres_hit : forall fuel w,
  GameState (app w) = true ->
  collider (app w) = true ->
  0 <= selectedSphere (app w) < NUM_SPHERES ->
  renderSpheres fuel w = hit fuel w.
Proof.
  intros fuel w Hg Hc Hr. apply renderSpheres_from_hit; auto.
Qed.

(* ------------------------------------------------------------------ *)
(** ** Lemmas on the blocks of [renderScene] *)

(** The numeric parts are not unfolded by simplification. *)
Arguments dist : simpl never.
Arguments elapsed : simpl never.
Arguments time_is_up : simpl never.
Arguments touching : simpl never.
Arguments LHOrientationPosition : simpl never.
Arguments vector_at : simpl never.
Arguments random_number : simpl never.
Arguments renderSpheres : simpl never.
Arguments gameOn : simpl never.
Arguments startGame : simpl never.

Lemma startGame_skipped : forall fuel f w,
  GameState (app w) = true \/ failed (startQuery f) \/
  trigger_touched (snd (startQuery f)) = false ->
  startGame fuel f w = Done w.
Proof.
  intros fuel f w H. unfold startGame, failed in *.
  destruct H as [-> | [-> | ->]].
  - now rewrite andb_false_r.
  - reflexivity.
  - now destruct (_ && _).
Qed.

Lemma startGame_fresh : forall k fuel f w,
  GameState (app w) = false ->
  OVR_SUCCESS (fst (startQuery f)) = true ->
  trigger_touched (snd (startQuery f)) = true ->
  first_fresh (rand_src w) (selectedSphere (app w)) k ->
  (k <= fuel)%nat ->
  startGame fuel f w =
    Done {| app := {| GameState := true;
                      selectedSphere := random_number (rand_src w) k;
                      collider := false;
                      start := clock_at_start f;
                      duration := duration (app w);
                      score := 0 |};
            cout := cout w ++ [GAME_START];
            rand_src := fun i => rand_src w (S k + i)%nat |}.
Proof.
  intros k fuel f w Hg Hq Ht Hk Hfuel. unfold startGame.
  rewrite Hg, Hq, Ht. simpl.
  rewrite (@random_Highlight_fresh k fuel); auto.
Qed.

Lemma startGame_done : forall fuel f w w',
  startGame fuel f w = Done w' ->
  w' = w \/
  (GameState (app w) = false /\
   OVR_SUCCESS (fst (startQuery f)) = true /\
   trigger_touched (snd (startQuery f)) = true /\
   exists k, first_fresh (rand_src w) (selectedSphere (app w)) k /\
     w' = {| app := {| GameState := true;
                       selectedSphere := random_number (rand_src w) k;
                       collider := false;
                       start := clock_at_start f;
                       duration := duration (app w);
                       score := 0 |};
             cout := cout w ++ [GAME_START];
             rand_src := fun i => rand_src w (S k + i)%nat |}).
Proof.
  intros fuel f w w' H. unfold startGame in H.
  destruct (OVR_SUCCESS (fst (startQuery f))) eqn:Hq; simpl in H;
    [|injection H as <-; now left].
  destruct (GameState (app w)) eqn:Hg; simpl in H; [injection H as <-; now left|].
  destruct (trigger_touched (snd (startQuery f))) eqn:Ht;
    [|injection H as <-; now left].
  destruct (random_Highlight fuel _) as [w1| |] eqn:E; simpl in H; try discriminate.
  apply random_Highlight_done in E. destruct E as (k & Hk & ->).
  simpl in *. injection H as <-. right. repeat split; auto. exists k. auto.
Qed.

Section Blocks.

Context {G : GLM}.
Variable CLOCKS_PER_SEC : Z.

Lemma gameOn_idle : forall f w,
  GameState (app w) = false -> gameOn CLOCKS_PER_SEC f w = Done w.
Proof. intros f w H. unfold gameOn. now rewrite H. Qed.

(** The "If Game is On" block with a round in progress. *)
Lemma gameOn_active : forall f w pos,
  GameState (app w) = true ->
  vector_at spheres_positions (selectedSphere (app w)) = Some pos ->
  gameOn CLOCKS_PER_SEC f w =
    Done
      (if time_is_up (elapsed CLOCKS_PER_SEC (clock_now f) (start (app w)))
       then
         {| app := {| GameState := false;
                      selectedSphere := -1;
                      collider :=
                        collider (app w)
                        || touching f (dist (LHOrientationPosition f) pos
                                            (handPosition f ovrHand_Right));
                      start := 0;
                      duration :=
                        elapsed CLOCKS_PER_SEC (clock_now f) (start (app w));
                      score := 0 |};
            cout := cout w ++ [GAME_OVER; Your_Final_Score_is (score (app w))];
            rand_src := rand_src w |}
       else
         {| app := {| GameState := true;
                      selectedSphere := selectedSphere (app w);
                      collider :=
                        collider (app w)
                        || touching f (dist (LHOrientationPosition f) pos
                                            (handPosition f ovrHand_Right));
                      start := start (app w);
                      duration :=
                        elapsed CLOCKS_PER_SEC (clock_now f) (start (app w));
                      score := score (app w) |};
            cout := cout w;
            rand_src := rand_src w |}).
Proof.
  intros f [[g s c st d sc] out rng] pos Hg Hp. cbn [app GameState selectedSphere
    collider start duration score cout rand_src] in *. subst g.
  unfold gameOn. cbn [app GameState selectedSphere]. rewrite Hp.
  f_equal. unfold gameTimer, collisionTest, with_app, print.
  destruct (touching f _);
    cbn [app GameState selectedSphere collider start duration score cout rand_src];
    destruct (time_is_up _);
    rewrite ?orb_true_r, ?orb_false_r, <- ?app_assoc; reflexivity.
Qed.

End Blocks.

(* ------------------------------------------------------------------ *)
(** ** The invariant of the frame loop *)

Ltac fields :=
  cbn [app GameState selectedSphere collider start duration score cout rand_src
       fst snd] in *.

Lemma snoc_two : forall (A : Type) (l : list A) (a b : A),
  l ++ [a; b] = (l ++ [a]) ++ [b].
Proof. intros. now rewrite <- app_assoc. Qed.

Lemma rounds_started_snoc : forall out m,
  rounds_started (out ++ [m]) =
  (rounds_started out + (if is_start m then 1 else 0))%nat.
Proof.
  intros out m. unfold rounds_started. rewrite filter_app, length_app.
  simpl. now destruct (is_start m).
Qed.

Lemma rounds_ended_snoc : forall out m,
  rounds_ended (out ++ [m]) =
  (rounds_ended out + (if is_over m then 1 else 0))%nat.
Proof.
  intros out m. unfold rounds_ended. rewrite filter_app, length_app.
  simpl. now destruct (is_over m).
Qed.

Lemma startGame_inv : forall fuel f w w1,
  game_inv (app w) -> balanced w ->
  startGame fuel f w = Done w1 ->
  game_inv (app w1) /\ balanced w1.
Proof.
  intros fuel f w w1 Hi Hb H. apply startGame_done in H.
  destruct H as [-> | (Hg & _ & _ & k & _ & ->)]; [now split|].
  unfold game_inv, target_inv, balanced in *. fields.
  rewrite Hg in Hb. rewrite rounds_started_snoc, rounds_ended_snoc. simpl.
  pose proof (random_number_range (rand_src w) k).
  unfold INT_MAX. repeat split; auto; lia.
Qed.

Lemma hit_inv : forall fuel w w',
  target_inv (app w) -> balanced w -> GameState (app w) = true ->
  hit fuel w = Done w' ->
  game_inv (app w') /\ balanced w'.
Proof.
  intros fuel w w' Hi Hb Hg H. apply hit_done in H.
  destruct H as (k & _ & Hs & ->).
  unfold game_inv, target_inv, balanced in *. fields.
  rewrite Hg in *. rewrite rounds_started_snoc, rounds_ended_snoc. simpl.
  pose proof (random_number_range (rand_src w) k).
  repeat split; auto; lia.
Qed.

Lemma renderSpheres_inv : forall fuel w w',
  target_inv (app w) -> balanced w ->
  renderSpheres fuel w = Done w' ->
  game_inv (app w') /\ balanced w'.
Proof.
  intros fuel w w' Hi Hb H.
  destruct (GameState (app w)) eqn:Hg.
  - destruct (collider (app w)) eqn:Hc.
    + rewrite renderSpheres_hit in H; auto.
      * exact (hit_inv _ Hi Hb Hg H).
      * destruct Hi as [_ Hi]. now rewrite Hg in Hi.
    + rewrite renderSpheres_calm in H by now right.
      injection H as <-. split; [split|]; auto.
  - rewrite renderSpheres_calm in H by now left.
    injection H as <-. split; [split|]; auto. congruence.
Qed.

Section Invariant.

Context {G : GLM}.
Variable CLOCKS_PER_SEC : Z.

Lemma gameOn_inv : forall f w w2,
  game_inv (app w) -> balanced w ->
  gameOn CLOCKS_PER_SEC f w = Done w2 ->
  target_inv (app w2) /\ balanced w2.
Proof.
  intros f w w2 [Hi Hc] Hb H.
  destruct (GameState (app w)) eqn:Hg.
  - assert (Hr : 0 <= selectedSphere (app w) < NUM_SPHERES).
    { destruct Hi as [_ Hi]. now rewrite Hg in Hi. }
    destruct (proj1 (vector_at_spheres _) Hr) as [pos Hp].
    rewrite (gameOn_active CLOCKS_PER_SEC f w Hg Hp) in H.
    injection H as <-.
    unfold target_inv, balanced in *. rewrite Hg in *.
    destruct (time_is_up _); fields.
    + rewrite snoc_two.
      rewrite rounds_started_snoc, rounds_ended_snoc.
      rewrite rounds_started_snoc, rounds_ended_snoc. simpl.
      unfold INT_MAX. repeat split; lia.
    + repeat split; auto; lia.
  - rewrite gameOn_idle in H by assumption. injection H as <-. now split.
Qed.

(** One call of [renderScene] keeps the invariant. *)
Lemma renderScene_inv : forall fuel f w w',
  game_inv (app w) -> balanced w ->
  renderScene CLOCKS_PER_SEC fuel f w = Done w' ->
  game_inv (app w') /\ balanced w'.
Proof.
  intros fuel f w w' Hi Hb H. unfold renderScene in H.
  destruct (startGame fuel f w) as [w1| |] eqn:E1;
    [rewrite bind_Done in H|discriminate H|discriminate H].
  destruct (startGame_inv _ _ Hi Hb E1) as [Hi1 Hb1].
  destruct (gameOn CLOCKS_PER_SEC f w1) as [w2| |] eqn:E2;
    [rewrite bind_Done in H|discriminate H|discriminate H].
  destruct (gameOn_inv _ Hi1 Hb1 E2) as [Hi2 Hb2].
  exact (renderSpheres_inv _ Hi2 Hb2 H).
Qed.

(** A frame, two calls of [renderScene], leads from a reachable world to a
    reachable world: frame boundaries are among the points the invariant
    speaks of. *)
Lemma draw_reachable : forall fuel left right w w',
  reachable CLOCKS_PER_SEC w ->
  draw CLOCKS_PER_SEC fuel left right w = Done w' ->
  reachable CLOCKS_PER_SEC w'.
Proof.
  intros fuel left right w w' Hr H. unfold draw in H.
  destruct (renderScene CLOCKS_PER_SEC fuel left w) as [w1| |] eqn:E;
    [rewrite bind_Done in H|discriminate H|discriminate H].
  apply (@reachable_step _ _ fuel right w1 w'); [|exact H].
  apply (@reachable_step _ _ fuel left w w1); assumption.
Qed.

Lemma reachable_inv : forall w,
  reachable CLOCKS_PER_SEC w -> game_inv (app w) /\ balanced w.
Proof.
  induction 1 as [c s d rng | fuel f w w' _ [Hi Hb] H].
  - unfold game_inv, target_inv, balanced, INT_MAX. simpl.
    repeat split; auto; try lia; discriminate.
  - exact (renderScene_inv _ _ Hi Hb H).
Qed.

End Invariant.

(* ------------------------------------------------------------------ *)
(** ** One call of [renderScene] with a round in progress *)

Lemma redraw_no_fault : forall fuel rng n selected why,
  redraw fuel rng n selected <> Fault why.
Proof.
  induction fuel as [|fuel IH]; intros rng n selected why; simpl;
    destruct (random_number rng n =? selected); try discriminate. apply IH.
Qed.

Lemma random_Highlight_no_fault : forall fuel w why,
  random_Highlight fuel w <> Fault why.
Proof.
  intros fuel w why H. unfold random_Highlight in H.
  destruct (redraw fuel (rand_src w) 0 (selectedSphere (app w))) as [p| |y] eqn:E;
    try discriminate H.
  injection H as ->. now apply redraw_no_fault in E.
Qed.

Lemma hit_fault : forall fuel w why,
  hit fuel w = Fault why -> why = SignedOverflow.
Proof.
  intros fuel w why H. unfold hit in H.
  destruct (random_Highlight fuel w) as [w1| |y] eqn:E.
  - rewrite bind_Done in H. unfold increment_score in H.
    destruct (score (app w1) <? INT_MAX); [discriminate H|].
    simpl in H. congruence.
  - discriminate H.
  - now apply random_Highlight_no_fault in E.
Qed.

Lemma startGame_no_fault : forall fuel f w why,
  startGame fuel f w <> Fault why.
Proof.
  intros fuel f w why H. unfold startGame in H.
  destruct (_ && _); [|discriminate H].
  destruct (trigger_touched _); [|discriminate H].
  destruct (random_Highlight fuel _) as [w1| |y] eqn:E; try discriminate H.
  now apply random_Highlight_no_fault in E.
Qed.

Section ActiveCall.

Context {G : GLM}.
Variable CLOCKS_PER_SEC : Z.

(** The time is up: the round ends, whatever the collision test found. *)
Lemma renderScene_timeout : forall fuel f w pos,
  GameState (app w) = true ->
  vector_at spheres_positions (selectedSphere (app w)) = Some pos ->
  time_is_up (elapsed CLOCKS_PER_SEC (clock_now f) (start (app w))) = true ->
  renderScene CLOCKS_PER_SEC fuel f w =
    Done {| app := {| GameState := false;
                      selectedSphere := -1;
                      collider :=
                        collider (app w)
                        || touching f (dist (LHOrientationPosition f) pos
                                            (handPosition f ovrHand_Right));
                      start := 0;
                      duration :=
                        elapsed CLOCKS_PER_SEC (clock_now f) (start (app w));
                      score := 0 |};
            cout := cout w ++ [GAME_OVER; Your_Final_Score_is (score (app w))];
            rand_src := rand_src w |}.
Proof.
  intros fuel f w pos Hg Hp Ht. unfold renderScene.
  rewrite startGame_skipped by now left.
  rewrite bind_Done, (gameOn_active CLOCKS_PER_SEC f w Hg Hp), bind_Done, Ht.
  apply renderSpheres_calm. now left.
Qed.

(** Time remains and nothing is touched: only [duration] changes. *)
Lemma renderScene_miss : forall fuel f w pos,
  GameState (app w) = true ->
  collider (app w) = false ->
  vector_at spheres_positions (selectedSphere (app w)) = Some pos ->
  time_is_up (elapsed CLOCKS_PER_SEC (clock_now f) (start (app w))) = false ->
  touching f (dist (LHOrientationPosition f) pos (handPosition f ovrHand_Right))
    = false ->
  renderScene CLOCKS_PER_SEC fuel f w =
    Done {| app := {| GameState := true;
                      selectedSphere := selectedSphere (app w);
                      collider := false;
                      start := start (app w);
                      duration :=
                        elapsed CLOCKS_PER_SEC (clock_now f) (start (app w));
                      score := score (app w) |};
            cout := cout w;
            rand_src := rand_src w |}.
Proof.
  intros fuel f w pos Hg Hc Hp Ht Hd. unfold renderScene.
  rewrite startGame_skipped by now left.
  rewrite bind_Done, (gameOn_active CLOCKS_PER_SEC f w Hg Hp), bind_Done.
  rewrite Ht, Hc, Hd. apply renderSpheres_calm. now right.
Qed.

(** Time remains and the selected sphere is touched: the sphere loop runs
    [hit] on the world the timer left. *)
Lemma renderScene_touch : forall fuel f w pos,
  GameState (app w) = true ->
  vector_at spheres_positions (selectedSphere (app w)) = Some pos ->
  time_is_up (elapsed CLOCKS_PER_SEC (clock_now f) (start (app w))) = false ->
  touching f (dist (LHOrientationPosition f) pos (handPosition f ovrHand_Right))
    = true ->
  renderScene CLOCKS_PER_SEC fuel f w =
    hit fuel
      {| app := {| GameState := true;
                   selectedSphere := selectedSphere (app w);
                   collider := true;
                   start := start (app w);
                   duration :=
                     elapsed CLOCKS_PER_SEC (clock_now f) (start (app w));
                   score := score (app w) |};
         cout := cout w;
         rand_src := rand_src w |}.
Proof.
  intros fuel f w pos Hg Hp Ht Hd. unfold renderScene.
  rewrite startGame_skipped by now left.
  rewrite bind_Done, (gameOn_active CLOCKS_PER_SEC f w Hg Hp), bind_Done.
  rewrite Ht, Hd, orb_true_r. apply renderSpheres_hit; try reflexivity.
  fields. apply vector_at_spheres. now exists pos.
Qed.

Lemma renderScene_hit : forall k fuel f w pos,
  GameState (app w) = true ->
  vector_at spheres_positions (selectedSphere (app w)) = Some pos ->
  time_is_up (elapsed CLOCKS_PER_SEC (clock_now f) (start (app w))) = false ->
  touching f (dist (LHOrientationPosition f) pos (handPosition f ovrHand_Right))
    = true ->
  first_fresh (rand_src w) (selectedSphere (app w)) k ->
  (k <= fuel)%nat ->
  score (app w) < INT_MAX ->
  renderScene CLOCKS_PER_SEC fuel f w =
    Done {| app := {| GameState := true;
                      selectedSphere := random_number (rand_src w) k;
                      collider := false;
                      start := start (app w);
                      duration :=
                        elapsed CLOCKS_PER_SEC (clock_now f) (start (app w));
                      score := score (app w) + 1 |};
            cout := cout w ++ [Collide_Your_Current_Score_is (score (app w) + 1)];
            rand_src := fun i => rand_src w (S k + i)%nat |}.
Proof.
  intros k fuel f w pos Hg Hp Ht Hd Hk Hfuel Hs.
  rewrite (renderScene_touch fuel f w Hg Hp Ht Hd).
  now rewrite (@hit_fresh k fuel).
Qed.

End ActiveCall.

(* ------------------------------------------------------------------ *)
(** ** The concrete session is a run of the frame loop *)

Lemma world1_reachable : reachable ticks world1.
Proof.
  apply (@reachable_step _ ticks 0%nat (call far_right (answered 0x10) 1000 1000) world0).
  - apply reachable_new.
  - vm_compute. reflexivity.
Qed.

Lemma world2_reachable : reachable ticks world2.
Proof.
  apply (@reachable_step _ ticks 0%nat (call origin (answered 0x10) 5 2000) world1).
  - apply world1_reachable.
  - vm_compute. reflexivity.
Qed.

(* ------------------------------------------------------------------ *)
(** ** Target selection *)

Section Selection.

Context {G : GLM}.
Variable CLOCKS_PER_SEC : Z.

(** C1. Every call of [random_Highlight] that returns leaves in
    [selectedSphere] an index of the grid, in [0, 125), that differs from
    the index it found there, and it changes nothing else but the debounce
    flag; the call returns as soon as the random source yields a number
    other than the current selection.  Hence a hit always moves the
    target: across a call of [renderScene] that keeps the round in
    progress, either the target and the score are unchanged, or the score
    went up by one and the target is another valid index. *)
Theorem random_Highlight_picks_another : forall (w : World),
  (forall fuel w', random_Highlight fuel w = Done w' ->
     0 <= selectedSphere (app w') < NUM_SPHERES /\
     selectedSphere (app w') <> selectedSphere (app w) /\
     collider (app w') = false /\
     GameState (app w') = GameState (app w) /\
     score (app w') = score (app w) /\
     start (app w') = start (app w) /\
     cout w' = cout w) /\
  (forall k fuel,
     first_fresh (rand_src w) (selectedSphere (app w)) k ->
     (k <= fuel)%nat ->
     exists w', random_Highlight fuel w = Done w' /\
                selectedSphere (app w') = random_number (rand_src w) k) /\
  (forall fuel f w',
     reachable CLOCKS_PER_SEC w ->
     GameState (app w) = true ->
     renderScene CLOCKS_PER_SEC fuel f w = Done w' ->
     GameState (app w') = true ->
     (selectedSphere (app w') = selectedSphere (app w) /\
      score (app w') = score (app w)) \/
     (0 <= selectedSphere (app w') < NUM_SPHERES /\
      selectedSphere (app w') <> selectedSphere (app w) /\
      score (app w') = score (app w) + 1)).
Proof.
  intros w. split; [|split].
  - intros fuel w' H. apply random_Highlight_done in H.
    destruct H as (k & [_ Hne] & ->). fields.
    pose proof (random_number_range (rand_src w) k). auto 10.
  - intros k fuel Hk Hfuel. eexists. split.
    + apply (random_Highlight_fresh w Hk Hfuel).
    + reflexivity.
  - intros fuel f w' Hr Hg H Hg'.
    destruct (reachable_inv Hr) as [[[_ Hi] Hc] _].
    rewrite Hg in Hi. specialize (Hc Hg).
    destruct (proj1 (vector_at_spheres _) Hi) as [pos Hp].
    destruct (time_is_up (elapsed CLOCKS_PER_SEC (clock_now f) (start (app w))))
      eqn:Ht.
    + rewrite (renderScene_timeout CLOCKS_PER_SEC fuel f w Hg Hp Ht) in H.
      injection H as <-. discriminate Hg'.
    + destruct (touching f (dist (LHOrientationPosition f) pos
                                 (handPosition f ovrHand_Right))) eqn:Hd.
      * rewrite (renderScene_touch CLOCKS_PER_SEC fuel f w Hg Hp Ht Hd) in H.
        apply hit_done in H. destruct H as (k & [_ Hne] & _ & ->). fields.
        pose proof (random_number_range (rand_src w) k). right. auto.
      * rewrite (renderScene_miss CLOCKS_PER_SEC fuel f w Hg Hc Hp Ht Hd) in H.
        injection H as <-. left. auto.
Qed.

End Selection.

Lemma random_Highlight_picks_another_witness :
  (exists w', random_Highlight 0 world1 = Done w' /\
              0 <= selectedSphere (app w') < NUM_SPHERES /\
              selectedSphere (app w') <> selectedSphere (app world1)) /\
  (exists w', random_Highlight 3 world0 = Done w' /\
              selectedSphere (app w') = random_number (rand_src world0) 0) /\
  ((selectedSphere (app world2) = selectedSphere (app world1) /\
    score (app world2) = score (app world1)) \/
   (0 <= selectedSphere (app world2) < NUM_SPHERES /\
    selectedSphere (app world2) <> selectedSphere (app world1) /\
    score (app world2) = score (app world1) + 1)).
Proof.
  destruct (@random_Highlight_picks_another glm_0_9_8 ticks world1)
    as (Hdone & _ & Hstep).
  destruct (@random_Highlight_picks_another glm_0_9_8 ticks world0)
    as (_ & Hfresh & _).
  split; [|split].
  - eexists. split; [reflexivity|].
    destruct (Hdone 0%nat _ eq_refl) as (Hr & Hne & _). split; assumption.
  - apply (Hfresh 0%nat 3%nat).
    + split; [intros j Hj; lia | vm_compute; discriminate].
    + lia.
  - apply (Hstep 0%nat (call origin (answered 0x10) 5 2000) world2).
    + exact world1_reachable.
    + reflexivity.
    + vm_compute. reflexivity.
    + reflexivity.
Defined.

(* ------------------------------------------------------------------ *)
(** ** The frame-boundary invariant *)

Section Bounds.

Context {G : GLM}.
Variable CLOCKS_PER_SEC : Z.

Lemma renderScene_in_bounds : forall fuel f w,
  game_inv (app w) -> balanced w ->
  renderScene CLOCKS_PER_SEC fuel f w <> Fault OutOfBounds.
Proof.
  intros fuel f w Hi Hb H. unfold renderScene in H.
  destruct (startGame fuel f w) as [w1| |y] eqn:E1;
    [rewrite bind_Done in H|discriminate H|now apply startGame_no_fault in E1].
  destruct (startGame_inv _ _ Hi Hb E1) as [[[Hs Hi1] Hc1] Hb1].
  destruct (GameState (app w1)) eqn:Hg.
  - destruct (proj1 (vector_at_spheres _) Hi1) as [pos Hp].
    rewrite (gameOn_active CLOCKS_PER_SEC f w1 Hg Hp), bind_Done in H.
    destruct (time_is_up _).
    + rewrite renderSpheres_calm in H by now left. discriminate H.
    + rewrite (Hc1 eq_refl), orb_false_l in H.
      destruct (touching f _).
      * rewrite renderSpheres_hit in H; try reflexivity; try exact Hi1.
        apply hit_fault in H. discriminate H.
      * rewrite renderSpheres_calm in H by now right. discriminate H.
  - rewrite gameOn_idle, bind_Done in H by assumption.
    rewrite renderSpheres_calm in H by now left. discriminate H.
Qed.

(** C10. Between any two calls of [renderScene] (so in particular at every
    frame boundary), [GameState] is false exactly when [selectedSphere] is
    -1, and while it is true [selectedSphere] lies in [0, 125); the read
    [spheres_positions[selectedSphere]] of a round in progress therefore
    finds one of the 125 positions, and no call of [renderScene] reads
    outside the vector. *)
Theorem selected_sphere_in_bounds : forall w,
  reachable CLOCKS_PER_SEC w ->
  (GameState (app w) = false <-> selectedSphere (app w) = -1) /\
  (GameState (app w) = true -> 0 <= selectedSphere (app w) < NUM_SPHERES) /\
  length spheres_positions = Z.to_nat NUM_SPHERES /\
  (GameState (app w) = true ->
     exists pos, vector_at spheres_positions (selectedSphere (app w)) = Some pos) /\
  (forall fuel f, renderScene CLOCKS_PER_SEC fuel f w <> Fault OutOfBounds).
Proof.
  intros w Hr. destruct (reachable_inv Hr) as [Hi Hb].
  pose proof Hi as [[_ Ht] _].
  split; [|split; [|split; [|split]]].
  - destruct (GameState (app w)); split; intros H; try discriminate; try tauto.
    unfold NUM_SPHERES in Ht. lia.
  - intros Hg. now rewrite Hg in Ht.
  - apply spheres_positions_length.
  - intros Hg. rewrite Hg in Ht. now apply vector_at_spheres.
  - intros fuel f. now apply renderScene_in_bounds.
Qed.

End Bounds.

Lemma selected_sphere_in_bounds_witness :
  (GameState (app world2) = false <-> selectedSphere (app world2) = -1) /\
  (GameState (app world2) = true -> 0 <= selectedSphere (app world2) < NUM_SPHERES) /\
  length spheres_positions = Z.to_nat NUM_SPHERES /\
  (GameState (app world2) = true ->
     exists pos, vector_at spheres_positions (selectedSphere (app world2)) = Some pos) /\
  (forall fuel f, renderScene ticks fuel f world2 <> Fault OutOfBounds).
Proof. exact (@selected_sphere_in_bounds glm_0_9_8 ticks world2 world2_reachable). Defined.

(* ------------------------------------------------------------------ *)
(** ** The keyboard *)

(** C9, as the code has it.  The key handler recognizes two keys, and only
    when they are pressed: escape asks the window to close, and R recentres
    the tracking origin of the headset.  Every other key event, and every
    event that is not a press, makes no call at all. *)
Theorem onKey_escape_and_R : forall key scancode action mods,
  KeyCallback key scancode action mods =
    if negb (action =? GLFW_PRESS) then []
    else if key =? GLFW_KEY_R then [ovr_RecenterTrackingOrigin]
    else if key =? GLFW_KEY_ESCAPE then [glfwSetWindowShouldClose 1]
    else [].
Proof.
  intros key scancode action mods.
  unfold KeyCallback, RiftApp.onKey, GlfwApp.onKey.
  rewrite (Z.eqb_sym GLFW_PRESS action).
  destruct (action =? GLFW_PRESS); simpl; [|reflexivity].
  destruct (key =? GLFW_KEY_R); reflexivity.
Qed.

(** C9, as the specification has it, fails: R is not escape, and pressing it
    is not without effect. *)
Lemma onKey_R_is_recognized :
  GLFW_KEY_R <> GLFW_KEY_ESCAPE /\
  KeyCallback GLFW_KEY_R 0 GLFW_PRESS 0 = [ovr_RecenterTrackingOrigin] /\
  KeyCallback GLFW_KEY_R 0 GLFW_PRESS 0 <> [].
Proof. repeat split; discriminate. Qed.

(* ------------------------------------------------------------------ *)
(** ** The end of a round *)

Section Timeout.

Context {G : GLM}.
Variable CLOCKS_PER_SEC : Z.

(** C2. In a call of [renderScene] entered with a round in progress, the
    round ends if and only if the elapsed time computed in that call,
    [(std::clock() - start) / (double)CLOCKS_PER_SEC], is at least 60.
    When it is, the call returns (whatever the fuel) with [GameState]
    false, [selectedSphere] -1, [score] 0 and [start] 0, having written
    "GAME OVER" and the final score, once.  It happens once per round:
    when it is not, nothing is written about the end of a round, and at
    every point of the frame loop the rounds announced as over are the
    rounds started, less the one in progress. *)
Theorem round_ends_at_sixty_seconds : forall fuel f w,
  reachable CLOCKS_PER_SEC w ->
  GameState (app w) = true ->
  (time_is_up (elapsed CLOCKS_PER_SEC (clock_now f) (start (app w))) = true ->
     exists pending,
       renderScene CLOCKS_PER_SEC fuel f w =
         Done {| app := {| GameState := false;
                           selectedSphere := -1;
                           collider := pending;
                           start := 0;
                           duration :=
                             elapsed CLOCKS_PER_SEC (clock_now f) (start (app w));
                           score := 0 |};
                 cout := cout w ++ [GAME_OVER; Your_Final_Score_is (score (app w))];
                 rand_src := rand_src w |}) /\
  (forall w', renderScene CLOCKS_PER_SEC fuel f w = Done w' ->
     (GameState (app w') = false <->
      time_is_up (elapsed CLOCKS_PER_SEC (clock_now f) (start (app w))) = true) /\
     (rounds_ended (cout w') =
      rounds_ended (cout w) + (if GameState (app w') then 0 else 1))%nat /\
     rounds_started (cout w') =
     (rounds_ended (cout w') + (if GameState (app w') then 1 else 0))%nat).
Proof.
  intros fuel f w Hr Hg.
  destruct (reachable_inv Hr) as [[[_ Hi] Hc] Hb].
  rewrite Hg in Hi. specialize (Hc Hg).
  destruct (proj1 (vector_at_spheres _) Hi) as [pos Hp].
  split.
  - intros Ht. eexists.
    apply (renderScene_timeout CLOCKS_PER_SEC fuel f w Hg Hp Ht).
  - intros w' H.
    assert (Hb' : balanced w').
    { apply (reachable_inv (@reachable_step _ _ fuel f w w' Hr H)). }
    split; [|split; [|exact Hb']].
    + destruct (time_is_up _) eqn:Ht.
      * rewrite (renderScene_timeout CLOCKS_PER_SEC fuel f w Hg Hp Ht) in H.
        injection H as <-. fields. tauto.
      * destruct (touching f (dist (LHOrientationPosition f) pos
                                   (handPosition f ovrHand_Right))) eqn:Hd.
        -- rewrite (renderScene_touch CLOCKS_PER_SEC fuel f w Hg Hp Ht Hd) in H.
           apply hit_done in H. destruct H as (k & _ & _ & ->). fields.
           split; discriminate.
        -- rewrite (renderScene_miss CLOCKS_PER_SEC fuel f w Hg Hc Hp Ht Hd) in H.
           injection H as <-. fields. split; discriminate.
    + destruct (time_is_up (elapsed CLOCKS_PER_SEC (clock_now f) (start (app w))))
        eqn:Ht.
      * rewrite (renderScene_timeout CLOCKS_PER_SEC fuel f w Hg Hp Ht) in H.
        injection H as <-. fields.
        rewrite snoc_two, !rounds_ended_snoc. simpl. lia.
      * destruct (touching f (dist (LHOrientationPosition f) pos
                                   (handPosition f ovrHand_Right))) eqn:Hd.
        -- rewrite (renderScene_touch CLOCKS_PER_SEC fuel f w Hg Hp Ht Hd) in H.
           apply hit_done in H. destruct H as (k & _ & _ & ->). fields.
           rewrite rounds_ended_snoc. simpl. lia.
        -- rewrite (renderScene_miss CLOCKS_PER_SEC fuel f w Hg Hc Hp Ht Hd) in H.
           injection H as <-. fields. lia.
Qed.

(** C7. In a call of [renderScene] entered with a round in progress in
    which the elapsed time has reached 60 seconds, the round ends whatever
    hit is pending, be it flagged earlier or by the collision test of this
    very call: [GameState] becomes false, [score] 0 and [selectedSphere]
    -1; the final score written is the score before the call, no "Collide"
    line is written, and the random source is left untouched, so no new
    target was drawn. *)
Theorem timeout_beats_pending_hit : forall fuel f w pos,
  GameState (app w) = true ->
  vector_at spheres_positions (selectedSphere (app w)) = Some pos ->
  time_is_up (elapsed CLOCKS_PER_SEC (clock_now f) (start (app w))) = true ->
  renderScene CLOCKS_PER_SEC fuel f w =
    Done {| app := {| GameState := false;
                      selectedSphere := -1;
                      collider :=
                        collider (app w)
                        || touching f (dist (LHOrientationPosition f) pos
                                            (handPosition f ovrHand_Right));
                      start := 0;
                      duration :=
                        elapsed CLOCKS_PER_SEC (clock_now f) (start (app w));
                      score := 0 |};
            cout := cout w ++ [GAME_OVER; Your_Final_Score_is (score (app w))];
            rand_src := rand_src w |}.
Proof. intros. now apply renderScene_timeout. Qed.

End Timeout.

Lemma round_ends_at_sixty_seconds_witness :
  (exists pending,
     renderScene ticks 0 last_call world2 =
       Done {| app := {| GameState := false; selectedSphere := -1;
                         collider := pending; start := 0;
                         duration := elapsed ticks 61000 1000; score := 0 |};
               cout := cout world2 ++ [GAME_OVER; Your_Final_Score_is 1];
               rand_src := rand_src world2 |}) /\
  (forall w', renderScene ticks 0 last_call world2 = Done w' ->
     (GameState (app w') = false <-> time_is_up (elapsed ticks 61000 1000) = true) /\
     (rounds_ended (cout w') =
      rounds_ended (cout world2) + (if GameState (app w') then 0 else 1))%nat /\
     rounds_started (cout w') =
     (rounds_ended (cout w') + (if GameState (app w') then 1 else 0))%nat).
Proof.
  destruct (@round_ends_at_sixty_seconds glm_0_9_8 ticks 0%nat last_call world2
              world2_reachable eq_refl) as [Hup Hall].
  split.
  - apply Hup. vm_compute. reflexivity.
  - exact Hall.
Defined.

Lemma timeout_beats_pending_hit_witness :
  touching last_call (dist (LHOrientationPosition last_call) sphere1
                           (handPosition last_call ovrHand_Right)) = true /\
  renderScene ticks 0 last_call world2 =
    Done {| app := {| GameState := false; selectedSphere := -1;
                      collider := true; start := 0;
                      duration := elapsed ticks 61000 1000; score := 0 |};
            cout := [GAME_START; Collide_Your_Current_Score_is 1;
                     GAME_OVER; Your_Final_Score_is 1];
            rand_src := rand_src world2 |}.
Proof.
  split.
  - vm_compute. reflexivity.
  - apply (@timeout_beats_pending_hit glm_0_9_8 ticks 0%nat last_call world2 sphere1).
    + reflexivity.
    + vm_compute. reflexivity.
    + vm_compute. reflexivity.
Defined.

(* ------------------------------------------------------------------ *)
(** ** The start of a round *)

Section Start.

Context {G : GLM}.
Variable CLOCKS_PER_SEC : Z.


End Start.



(* ------------------------------------------------------------------ *)
(** ** Hits *)

Section Hits.

Context {G : GLM}.
Variable CLOCKS_PER_SEC : Z.

(** C4, as the code has it.  In a call of [renderScene] entered with a
    round in progress in which the distance between the selected sphere
    (moved by the grab transform) and the right hand is below the
    threshold, the third query succeeds and reports the trigger touched,
    and the elapsed time computed in that call is below 60 seconds, a hit
    occurs: the call returns, once the random source yields another
    index, with [score] one higher, a new target in [0, 125) that differs
    from the old one, the debounce flag cleared and [GameState] still
    true; the new score is written, and nothing else changes but
    [duration]. *)
Theorem hit_scores_while_time_remains : forall k fuel f w pos,
  GameState (app w) = true ->
  vector_at spheres_positions (selectedSphere (app w)) = Some pos ->
  OVR_SUCCESS (fst (touchQuery f)) = true ->
  trigger_touched (snd (touchQuery f)) = true ->
  F32.ltb (dist (LHOrientationPosition f) pos (handPosition f ovrHand_Right))
          threshold = true ->
  time_is_up (elapsed CLOCKS_PER_SEC (clock_now f) (start (app w))) = false ->
  score (app w) < INT_MAX ->
  first_fresh (rand_src w) (selectedSphere (app w)) k ->
  (k <= fuel)%nat ->
  0 <= random_number (rand_src w) k < NUM_SPHERES /\
  random_number (rand_src w) k <> selectedSphere (app w) /\
  renderScene CLOCKS_PER_SEC fuel f w =
    Done {| app := {| GameState := true;
                      selectedSphere := random_number (rand_src w) k;
                      collider := false;
                      start := start (app w);
                      duration :=
                        elapsed CLOCKS_PER_SEC (clock_now f) (start (app w));
                      score := score (app w) + 1 |};
            cout := cout w ++ [Collide_Your_Current_Score_is (score (app w) + 1)];
            rand_src := fun i => rand_src w (S k + i)%nat |}.
Proof.
  intros k fuel f w pos Hg Hp Hq Ht Hd Hup Hs Hk Hfuel.
  split; [apply random_number_range|]. split; [apply Hk|].
  apply (renderScene_hit CLOCKS_PER_SEC f w Hg Hp Hup); auto.
  unfold touching. now rewrite Hq, Hd, Ht.
Qed.

(** C5. The collision test compares with a strict [<]: with the third
    query successful and the trigger touched, the test flags a hit
    exactly when [dist < 0.055f] holds in [float].  At a distance equal to
    [0.055f] nothing is flagged, and a call in which time remains leaves
    the target and the score as they were; at a distance below it the
    debounce flag is set, and a call in which time remains goes on to the
    hit. *)
Theorem collision_test_is_strict : forall fuel f w pos,
  GameState (app w) = true ->
  collider (app w) = false ->
  vector_at spheres_positions (selectedSphere (app w)) = Some pos ->
  OVR_SUCCESS (fst (touchQuery f)) = true ->
  trigger_touched (snd (touchQuery f)) = true ->
  let d := dist (LHOrientationPosition f) pos (handPosition f ovrHand_Right) in
  let e := elapsed CLOCKS_PER_SEC (clock_now f) (start (app w)) in
  touching f d = F32.ltb d threshold /\
  (d = threshold ->
     collisionTest f d (app w) = app w /\
     (time_is_up e = false ->
        renderScene CLOCKS_PER_SEC fuel f w =
          Done {| app := {| GameState := true;
                            selectedSphere := selectedSphere (app w);
                            collider := false;
                            start := start (app w);
                            duration := e;
                            score := score (app w) |};
                  cout := cout w;
                  rand_src := rand_src w |})) /\
  (F32.ltb d threshold = true ->
     collider (collisionTest f d (app w)) = true /\
     (time_is_up e = false ->
        renderScene CLOCKS_PER_SEC fuel f w =
          hit fuel {| app := {| GameState := true;
                                selectedSphere := selectedSphere (app w);
                                collider := true;
                                start := start (app w);
                                duration := e;
                                score := score (app w) |};
                      cout := cout w;
                      rand_src := rand_src w |})).
Proof.
  intros fuel f w pos Hg Hc Hp Hq Ht d e.
  assert (Hd : touching f d = F32.ltb d threshold).
  { unfold touching. now rewrite Hq, Ht, andb_true_r. }
  split; [exact Hd|]. split.
  - intros Heq.
    assert (Hlt : touching f d = false).
    { rewrite Hd, Heq. vm_compute. reflexivity. }
    split.
    + unfold collisionTest. now rewrite Hlt.
    + intros Hup.
      exact (renderScene_miss CLOCKS_PER_SEC fuel f w Hg Hc Hp Hup Hlt).
  - intros Hlt. rewrite <- Hd in Hlt. split.
    + unfold collisionTest. now rewrite Hlt.
    + intros Hup.
      exact (renderScene_touch CLOCKS_PER_SEC fuel f w Hg Hp Hup Hlt).
Qed.

End Hits.

(** C4, as the specification has it, fails: at tick 61000 the hand is on the
    selected sphere and the trigger is touched, yet the round ends, and
    the score is not 2 but 0. *)
Lemma hit_dropped_when_time_is_up :
  reachable ticks world2 /\
  GameState (app world2) = true /\
  vector_at spheres_positions (selectedSphere (app world2)) = Some sphere1 /\
  OVR_SUCCESS (fst (touchQuery last_call)) = true /\
  trigger_touched (snd (touchQuery last_call)) = true /\
  F32.ltb (dist (LHOrientationPosition last_call) sphere1
                (handPosition last_call ovrHand_Right)) threshold = true /\
  exists w', renderScene ticks 0 last_call world2 = Done w' /\
             GameState (app w') = false /\
             selectedSphere (app w') = -1 /\
             score (app w') = 0 /\
             score (app w') <> score (app world2) + 1.
Proof.
  split; [exact world2_reachable|].
  repeat (split; [vm_compute; reflexivity|]).
  eexists. split; [vm_compute; reflexivity|].
  repeat split. discriminate.
Qed.

(** One tick earlier the same hit scores. *)
Lemma hit_scores_while_time_remains_witness :
  renderScene ticks 0 (call sphere1 (answered 0x10) 5 60999) world2 =
    Done {| app := {| GameState := true; selectedSphere := 2; collider := false;
                      start := 1000; duration := elapsed ticks 60999 1000;
                      score := 2 |};
            cout := [GAME_START; Collide_Your_Current_Score_is 1;
                     Collide_Your_Current_Score_is 2];
            rand_src := fun i => counting (3 + i) |}.
Proof.
  apply (@hit_scores_while_time_remains glm_0_9_8 ticks 0%nat 0%nat
           (call sphere1 (answered 0x10) 5 60999) world2 sphere1);
    try (vm_compute; reflexivity).
  split; [intros j Hj; lia | vm_compute; discriminate].
Defined.

(** The hand at [0.055f] from sphere 0 along x, then on sphere 0. *)
Lemma collision_test_is_strict_witness :
  dist (LHOrientationPosition (call on_threshold (answered 0x10) 5 2000)) origin
       on_threshold = threshold /\
  renderScene ticks 0 (call on_threshold (answered 0x10) 5 2000) world1 =
    Done {| app := {| GameState := true; selectedSphere := 0; collider := false;
                      start := 1000; duration := elapsed ticks 2000 1000;
                      score := 0 |};
            cout := [GAME_START];
            rand_src := rand_src world1 |} /\
  collider (collisionTest (call origin (answered 0x10) 5 2000)
                          (dist (LHOrientationPosition
                                   (call origin (answered 0x10) 5 2000))
                                origin origin)
                          (app world1)) = true.
Proof.
  destruct (@collision_test_is_strict glm_0_9_8 ticks 0%nat
              (call on_threshold (answered 0x10) 5 2000) world1 origin
              eq_refl eq_refl eq_refl eq_refl eq_refl) as (_ & Hedge & _).
  destruct (@collision_test_is_strict glm_0_9_8 ticks 0%nat
              (call origin (answered 0x10) 5 2000) world1 origin
              eq_refl eq_refl eq_refl eq_refl eq_refl) as (_ & _ & Hbelow).
  assert (Hd : dist (LHOrientationPosition (call on_threshold (answered 0x10) 5 2000))
                    origin on_threshold = threshold) by (vm_compute; reflexivity).
  split; [exact Hd|]. split.
  - apply (proj2 (Hedge Hd)). vm_compute. reflexivity.
  - apply Hbelow. vm_compute. reflexivity.
Defined.

(* ------------------------------------------------------------------ *)
(** ** The score *)

Section Score.

Context {G : GLM}.
Variable CLOCKS_PER_SEC : Z.

(** C6, as the code has it.  Across a call of [renderScene] that begins
    and ends with a round in progress the score does not decrease (it
    stays, or goes up by one).  The score is set to 0 by the start of
    every round and also by the end of every round, so it is 0 whenever no
    round is in progress; and it decreases at no other point: a call after
    which the score is lower is a call in which a round in progress
    ended. *)
Theorem score_monotone_between_resets : forall fuel f w w',
  reachable CLOCKS_PER_SEC w ->
  renderScene CLOCKS_PER_SEC fuel f w = Done w' ->
  (GameState (app w) = true -> GameState (app w') = true ->
     score (app w) <= score (app w') <= score (app w) + 1) /\
  (forall w1, GameState (app w) = false ->
     startGame fuel f w = Done w1 -> GameState (app w1) = true ->
     score (app w1) = 0) /\
  (GameState (app w') = false -> score (app w') = 0) /\
  (score (app w') < score (app w) ->
     GameState (app w) = true /\ GameState (app w') = false /\
     time_is_up (elapsed CLOCKS_PER_SEC (clock_now f) (start (app w))) = true).
Proof.
  intros fuel f w w' Hr H.
  pose proof (reachable_inv (@reachable_step _ _ fuel f w w' Hr H))
    as [[[Hs' Hi'] _] _].
  destruct (reachable_inv Hr) as [[[Hs Hi] Hc] _].
  assert (Hactive : GameState (app w) = true ->
           (time_is_up (elapsed CLOCKS_PER_SEC (clock_now f) (start (app w))) = true
            /\ GameState (app w') = false) \/
           (GameState (app w') = true /\
            score (app w) <= score (app w') <= score (app w) + 1)).
  { intros Hg. rewrite Hg in Hi. specialize (Hc Hg).
    destruct (proj1 (vector_at_spheres _) Hi) as [pos Hp].
    destruct (time_is_up (elapsed CLOCKS_PER_SEC (clock_now f) (start (app w))))
      eqn:Ht.
    - rewrite (renderScene_timeout CLOCKS_PER_SEC fuel f w Hg Hp Ht) in H.
      injection H as <-. left. auto.
    - right.
      destruct (touching f (dist (LHOrientationPosition f) pos
                                 (handPosition f ovrHand_Right))) eqn:Hd.
      + rewrite (renderScene_touch CLOCKS_PER_SEC fuel f w Hg Hp Ht Hd) in H.
        apply hit_done in H. destruct H as (k & _ & _ & ->). fields.
        split; [reflexivity|lia].
      + rewrite (renderScene_miss CLOCKS_PER_SEC fuel f w Hg Hc Hp Ht Hd) in H.
        injection H as <-. fields. split; [reflexivity|lia]. }
  split; [|split; [|split]].
  - intros Hg Hg'. destruct (Hactive Hg) as [[_ Hg''] | [_ Hle]]; [congruence|exact Hle].
  - intros w1 Hg H1 Hg1. apply startGame_done in H1.
    destruct H1 as [-> | (_ & _ & _ & k & _ & ->)]; [congruence|reflexivity].
  - intros Hg'. rewrite Hg' in Hi'. apply Hi'.
  - intros Hlt. destruct (GameState (app w)) eqn:Hg.
    + destruct (Hactive eq_refl) as [[Ht Hg'] | [_ Hle]]; [auto|lia].
    + destruct Hi as [_ Hz]. lia.
Qed.

End Score.

(** C6, as the specification has it, fails: the call at tick 61000 starts
    no round (the start block leaves the world as it is), and yet it takes
    the score from 1 to 0. *)
Lemma score_reset_by_timeout :
  reachable ticks world2 /\
  GameState (app world2) = true /\
  score (app world2) = 1 /\
  startGame 0 last_call world2 = Done world2 /\
  exists w', renderScene ticks 0 last_call world2 = Done w' /\
             GameState (app w') = false /\
             score (app w') = 0.
Proof.
  split; [exact world2_reachable|].
  repeat (split; [vm_compute; reflexivity|]).
  eexists. split; [vm_compute; reflexivity|]. split; reflexivity.
Qed.

Lemma score_monotone_between_resets_witness :
  score (app world1) <= score (app world2) <= score (app world1) + 1.
Proof.
  refine (proj1 (@score_monotone_between_resets glm_0_9_8 ticks 0%nat
                   (call origin (answered 0x10) 5 2000) world1 world2
                   world1_reachable _) eq_refl eq_refl).
  vm_compute. reflexivity.
Defined.

(* ------------------------------------------------------------------ *)
(** ** Failed queries *)

Section Failures.

Context {G : GLM}.
Variable CLOCKS_PER_SEC : Z.


End Failures.


(* ------------------------------------------------------------------ *)
(** ** The grid of spheres *)


Lemma small_cases : forall x, 0 <= x < GRID_SIZE ->
  x = 0 \/ x = 1 \/ x = 2 \/ x = 3 \/ x = 4.
Proof. unfold GRID_SIZE. lia. Qed.

Lemma sphere_grid_positions : forall (G : GLM),
  fst sphere_grid = spheres_positions /\
  snd sphere_grid = map (translate (mat4_diag f1)) spheres_positions.
Proof. intros G. split; vm_compute; reflexivity. Qed.

Lemma vector_at_map : forall (A B : Type) (g : A -> B) (l : list A) (i : Z),
  vector_at (map g l) i = option_map g (vector_at l i).
Proof.
  intros A B g l i. unfold vector_at. destruct (i <? 0); [reflexivity|].
  apply nth_error_map.
Qed.

Lemma spheres_positions_lattice : forall x y z,
  0 <= x < GRID_SIZE -> 0 <= y < GRID_SIZE -> 0 <= z < GRID_SIZE ->
  vector_at spheres_positions (x + GRID_SIZE * y + GRID_SIZE * GRID_SIZE * z) =
    Some (lattice_point x y z).
Proof.
  intros x y z Hx Hy Hz. apply small_cases in Hx, Hy, Hz.
  destruct Hx as [-> | [-> | [-> | [-> | ->]]]];
  destruct Hy as [-> | [-> | [-> | [-> | ->]]]];
  destruct Hz as [-> | [-> | [-> | [-> | ->]]]];
  vm_compute; reflexivity.
Qed.

(** X1. The constructor of [ColorSphereScene] fills both vectors with 125
    entries, x running fastest: entry [x + 5 y + 25 z] of
    [spheres_positions] is the point [(0.14f x, 0.14f y, 0.14f z)], and the
    same entry of [instance_positions] is the translation to that very
    point, so every sphere is tested where it is drawn. *)
Theorem sphere_grid_lattice : forall (G : GLM) x y z,
  0 <= x < GRID_SIZE -> 0 <= y < GRID_SIZE -> 0 <= z < GRID_SIZE ->
  instanceCount = NUM_SPHERES /\
  vector_at (fst sphere_grid) (x + GRID_SIZE * y + GRID_SIZE * GRID_SIZE * z) =
    Some (lattice_point x y z) /\
  vector_at instance_positions (x + GRID_SIZE * y + GRID_SIZE * GRID_SIZE * z) =
    Some (translate (mat4_diag f1) (lattice_point x y z)).
Proof.
  intros G x y z Hx Hy Hz.
  destruct (sphere_grid_positions G) as [E1 E2].
  unfold instanceCount, instance_positions. rewrite E1, E2.
  rewrite length_map, spheres_positions_length, vector_at_map.
  rewrite (spheres_positions_lattice Hx Hy Hz).
  repeat split.
Qed.


Lemma centres_checked :
  forallb (fun i => forallb (fun j => Bool.eqb (centre_in_reach i j) (Nat.eqb i j))
                            (seq 0 125))
          (seq 0 125) = true.
Proof. vm_compute. reflexivity. Qed.

Lemma dist_distance : forall (G : GLM) (LH : mat4) (p q : vec3),
  mat4_mul_vec4 LH (vec4_of p f1) = vec4_of p f1 ->
  dist LH p q = distance p q.
Proof.
  intros G LH p q H. unfold dist. rewrite H. destruct p; reflexivity.
Qed.

(** X2. The spheres are too far apart to be confused: when the grab
    transform leaves the selected sphere [i] where it is (as the identity
    does, while X is not held), a hand at the centre of sphere [j] is
    closer than [0.055f] to the selected sphere exactly when [j] is [i]. *)
Theorem only_the_selected_centre_is_in_reach : forall (G : GLM) (LH : mat4) i j p q,
  vector_at spheres_positions i = Some p ->
  vector_at spheres_positions j = Some q ->
  mat4_mul_vec4 LH (vec4_of p f1) = vec4_of p f1 ->
  F32.ltb (dist LH p q) threshold = (i =? j).
Proof.
  intros G LH i j p q Hp Hq HI.
  rewrite (@dist_distance G LH p q HI).
  assert (Hi : 0 <= i < NUM_SPHERES) by (apply vector_at_spheres; eauto).
  assert (Hj : 0 <= j < NUM_SPHERES) by (apply vector_at_spheres; eauto).
  unfold vector_at in Hp, Hq. unfold NUM_SPHERES in *.
  destruct (i <? 0) eqn:Ei; [discriminate|].
  destruct (j <? 0) eqn:Ej; [discriminate|].
  pose proof centres_checked as C.
  rewrite forallb_forall in C.
  specialize (C (Z.to_nat i)). rewrite in_seq in C.
  specialize (C ltac:(lia)). rewrite forallb_forall in C.
  specialize (C (Z.to_nat j)). rewrite in_seq in C.
  specialize (C ltac:(lia)).
  apply Bool.eqb_prop in C. unfold centre_in_reach in C. rewrite Hp, Hq in C.
  rewrite C. destruct (Nat.eqb_spec (Z.to_nat i) (Z.to_nat j)) as [E|E];
    symmetry; [apply Z.eqb_eq|apply Z.eqb_neq]; lia.
Qed.

(* ------------------------------------------------------------------ *)
(** ** When [random_Highlight] returns *)

Lemma first_fresh_below : forall rng selected k,
  random_number rng k <> selected ->
  exists k0, (k0 <= k)%nat /\ first_fresh rng selected k0.
Proof.
  intros rng selected k. induction k as [k IH] using lt_wf_ind. intros Hk.
  destruct (existsb (fun j => negb (random_number rng j =? selected)) (seq 0 k))
    eqn:E.
  - apply existsb_exists in E. destruct E as (j & Hj & Hne).
    apply in_seq in Hj. apply negb_true_iff, Z.eqb_neq in Hne.
    destruct (IH j ltac:(lia) Hne) as (k0 & Hle & Hf).
    exists k0. split; [lia|exact Hf].
  - exists k. split; [lia|]. split; [|exact Hk].
    intros j Hj.
    assert (Hin : In j (seq 0 k)) by (apply in_seq; lia).
    destruct (Z.eqb_spec (random_number rng j) selected) as [Heq|Hne];
      [exact Heq|].
    assert (Hex : existsb (fun j => negb (random_number rng j =? selected))
                          (seq 0 k) = true).
    { apply existsb_exists. exists j. split; [exact Hin|].
      apply negb_true_iff, Z.eqb_neq. exact Hne. }
    congruence.
Qed.

(** X3. [random_Highlight] returns exactly when some later draw differs
    from the current selection; while [srand(time(NULL)); rand() % 125]
    keeps giving the selected index, it loops, whatever the fuel. *)
Theorem random_Highlight_returns_iff_a_draw_differs : forall w,
  ((exists fuel w', random_Highlight fuel w = Done w') <->
   (exists k, random_number (rand_src w) k <> selectedSphere (app w))) /\
  ((forall k, random_number (rand_src w) k = selectedSphere (app w)) ->
   forall fuel, random_Highlight fuel w = Spin).
Proof.
  intros w. split; [split|].
  - intros (fuel & w' & H). apply random_Highlight_done in H.
    destruct H as (k & [_ Hne] & _). now exists k.
  - intros (k & Hk). destruct (first_fresh_below _ _ Hk) as (k0 & _ & Hf).
    exists k0. eexists. apply (random_Highlight_fresh w Hf). lia.
  - intros Hall fuel.
    destruct (random_Highlight fuel w) as [w'| |why] eqn:E; [|reflexivity|].
    + apply random_Highlight_done in E. destruct E as (k & [_ Hne] & _).
      now specialize (Hall k).
    + now apply random_Highlight_no_fault in E.
Qed.

(* ------------------------------------------------------------------ *)
(** ** The console is a faithful log *)

Lemma replay_app : forall out active points active' points' more,
  replay active points out = Some (active', points') ->
  replay active points (out ++ more) = replay active' points' more.
Proof.
  intros out. remember (length out) as n eqn:Hn.
  revert out Hn. induction n as [n IH] using lt_wf_ind.
  intros out Hn active points active' points' more H.
  destruct out as [|m rest]; simpl in H.
  - now injection H as <- <-.
  - destruct m as [| | k | k]; simpl.
    + destruct active; [discriminate|].
      apply (IH (length rest)) with (out := rest); simpl in Hn; auto; lia.
    + destruct rest as [|m2 rest2]; [discriminate|].
      destruct m2 as [| | k | k]; try discriminate. simpl.
      destruct (active && (k =? points)); [|discriminate].
      apply (IH (length rest2)) with (out := rest2); simpl in Hn; auto; lia.
    + discriminate.
    + destruct (active && (k =? points + 1)); [|discriminate].
      apply (IH (length rest)) with (out := rest); simpl in Hn; auto; lia.
Qed.


Lemma startGame_logged : forall fuel f w w1,
  game_inv (app w) -> logged w -> startGame fuel f w = Done w1 -> logged w1.
Proof.
  intros fuel f w w1 [[_ Hi] _] Hl H. apply startGame_done in H.
  destruct H as [-> | (Hg & _ & _ & k & _ & ->)]; [exact Hl|].
  unfold logged in *. fields. rewrite Hg in *.
  rewrite (@replay_app _ _ _ _ _ _ Hl). reflexivity.
Qed.

Lemma renderSpheres_logged : forall fuel w w',
  target_inv (app w) -> logged w -> renderSpheres fuel w = Done w' -> logged w'.
Proof.
  intros fuel w w' [_ Hi] Hl H.
  destruct (GameState (app w)) eqn:Hg.
  - destruct (collider (app w)) eqn:Hc.
    + rewrite renderSpheres_hit in H by auto.
      apply hit_done in H. destruct H as (k & _ & _ & ->).
      unfold logged in *. fields. rewrite Hg in *.
      rewrite (@replay_app _ _ _ _ _ _ Hl). simpl. now rewrite Z.eqb_refl.
    + rewrite renderSpheres_calm in H by now right. now injection H as <-.
  - rewrite renderSpheres_calm in H by now left. now injection H as <-.
Qed.

Section Log.

Context {G : GLM}.
Variable CLOCKS_PER_SEC : Z.

Lemma gameOn_logged : forall f w w2,
  game_inv (app w) -> logged w -> gameOn CLOCKS_PER_SEC f w = Done w2 -> logged w2.
Proof.
  intros f w w2 [[_ Hi] _] Hl H.
  destruct (GameState (app w)) eqn:Hg.
  - destruct (proj1 (vector_at_spheres _) Hi) as [pos Hp].
    rewrite (gameOn_active CLOCKS_PER_SEC f w Hg Hp) in H. injection H as <-.
    unfold logged in *. rewrite Hg in Hl.
    destruct (time_is_up _); fields; [|exact Hl].
    rewrite (@replay_app _ _ _ _ _ _ Hl). simpl. now rewrite Z.eqb_refl.
  - rewrite gameOn_idle in H by assumption. now injection H as <-.
Qed.

Lemma renderScene_logged : forall fuel f w w',
  game_inv (app w) -> balanced w -> logged w ->
  renderScene CLOCKS_PER_SEC fuel f w = Done w' -> logged w'.
Proof.
  intros fuel f w w' Hi Hb Hl H. unfold renderScene in H.
  destruct (startGame fuel f w) as [w1| |] eqn:E1;
    [rewrite bind_Done in H|discriminate H|discriminate H].
  destruct (startGame_inv _ _ Hi Hb E1) as [Hi1 Hb1].
  pose proof (startGame_logged _ _ Hi Hl E1) as Hl1.
  destruct (gameOn CLOCKS_PER_SEC f w1) as [w2| |] eqn:E2;
    [rewrite bind_Done in H|discriminate H|discriminate H].
  destruct (@gameOn_inv _ _ _ _ _ Hi1 Hb1 E2) as [Hi2 Hb2].
  pose proof (@gameOn_logged _ _ _ Hi1 Hl1 E2) as Hl2.
  exact (renderSpheres_logged _ Hi2 Hl2 H).
Qed.

(** X4. The console is a faithful log.  At every point of the frame loop,
    what was written to [std::cout] is a sequence of rounds, each opened by
    "GAME START" and closed by "GAME OVER" and a final score, in which the
    "Collide" lines count 1, 2, 3, ... and the final score is the last
    count; replaying it gives whether a round is in progress and the
    current score. *)
Theorem console_is_a_faithful_log : forall w,
  reachable CLOCKS_PER_SEC w ->
  replay false 0 (cout w) = Some (GameState (app w), score (app w)).
Proof.
  induction 1 as [c s d rng | fuel f w w' Hr Hl H].
  - reflexivity.
  - destruct (reachable_inv Hr) as [Hi Hb].
    exact (@renderScene_logged _ _ _ _ Hi Hb Hl H).
Qed.

End Log.

(* ------------------------------------------------------------------ *)
(** ** A round that scores in the call that starts it *)

Section FirstCall.

Context {G : GLM}.
Variable CLOCKS_PER_SEC : Z.

(** X5. A round can score in the call that starts it: the collision test
    runs after the start block and already sees the new target.  With no
    round in progress, the trigger touched and the right hand within reach
    of the sphere that gets selected, the call ends with score 1, a second
    target, and both "GAME START" and "Collide" written. *)
Theorem round_can_score_in_its_first_call : forall k fuel f w pos,
  reachable CLOCKS_PER_SEC w ->
  GameState (app w) = false ->
  OVR_SUCCESS (fst (startQuery f)) = true ->
  trigger_touched (snd (startQuery f)) = true ->
  vector_at spheres_positions (random_number (rand_src w) 0) = Some pos ->
  touching f (dist (LHOrientationPosition f) pos (handPosition f ovrHand_Right))
    = true ->
  time_is_up (elapsed CLOCKS_PER_SEC (clock_now f) (clock_at_start f)) = false ->
  first_fresh (fun i => rand_src w (1 + i)%nat) (random_number (rand_src w) 0) k ->
  (k <= fuel)%nat ->
  renderScene CLOCKS_PER_SEC fuel f w =
    Done {| app := {| GameState := true;
                      selectedSphere := random_number (rand_src w) (1 + k);
                      collider := false;
                      start := clock_at_start f;
                      duration :=
                        elapsed CLOCKS_PER_SEC (clock_now f) (clock_at_start f);
                      score := 1 |};
            cout := cout w ++ [GAME_START; Collide_Your_Current_Score_is 1];
            rand_src := fun i => rand_src w (1 + (S k + i))%nat |}.
Proof.
  intros k fuel f w pos Hr Hg Hq Ht Hp Hd Hup Hk Hfuel.
  destruct (reachable_inv Hr) as [[[_ Hi] _] _]. rewrite Hg in Hi.
  destruct Hi as [Hsel _].
  assert (H0 : first_fresh (rand_src w) (selectedSphere (app w)) 0).
  { split; [intros j Hj; lia|]. rewrite Hsel.
    pose proof (random_number_range (rand_src w) 0). lia. }
  unfold renderScene.
  rewrite (@startGame_fresh 0%nat fuel f w Hg Hq Ht H0) by lia.
  rewrite bind_Done.
  match goal with |- context [gameOn _ _ ?s] => set (started := s) end.
  rewrite (@gameOn_active _ CLOCKS_PER_SEC f started pos eq_refl Hp), bind_Done.
  subst started. fields. rewrite Hup, Hd.
  rewrite renderSpheres_hit; try reflexivity.
  - rewrite (@hit_fresh k fuel); fields; auto.
    + rewrite snoc_two. reflexivity.
    + unfold INT_MAX. lia.
  - fields. apply random_number_range.
Qed.

End FirstCall.

(* ------------------------------------------------------------------ *)
(** ** What the sphere loop draws *)

Arguments drawSpheres : simpl never.

Lemma indices_S : forall i n, indices i (S n) = i :: indices (i + 1) n.
Proof.
  intros i n. unfold indices. simpl. rewrite Z.add_0_r. f_equal.
  rewrite <- seq_shift, map_map. apply map_ext. intros k. lia.
Qed.

Lemma indices_range : forall n i k, In k (indices i n) <-> i <= k < i + Z.of_nat n.
Proof.
  intros n i k. unfold indices. rewrite in_map_iff. split.
  - intros (m & <- & Hm). apply in_seq in Hm. lia.
  - intros Hk. exists (Z.to_nat (k - i)). split; [lia|]. apply in_seq. lia.
Qed.

Lemma bind_bind : forall (A B C : Type) (r : result A) (k : A -> result B)
    (h : B -> result C),
  bind (bind r k) h = bind r (fun a => bind (k a) h).
Proof. intros A B C [a| |why] k h; reflexivity. Qed.

(** The loop with its draw calls is the loop of the game, draw calls
    forgotten. *)
Lemma drawSphere_world : forall fuel i p,
  bind (drawSphere fuel i p) (fun q => Done (world q)) =
  renderSphere fuel i (world p).
Proof.
  intros fuel i p. unfold drawSphere, renderSphere.
  destruct (GameState (app (world p))); [|reflexivity].
  destruct (i =? to_unsigned (selectedSphere (app (world p)))); [|reflexivity].
  destruct (collider (app (world p))); [|reflexivity].
  destruct (hit fuel (world p)); reflexivity.
Qed.

Lemma drawSpheres_from_world : forall fuel n i p,
  bind (drawSpheres_from fuel n i p) (fun q => Done (world q)) =
  renderSpheres_from fuel n i (world p).
Proof.
  induction n as [|n IH]; intros i p; [reflexivity|].
  cbn [drawSpheres_from renderSpheres_from].
  rewrite <- drawSphere_world, !bind_bind.
  destruct (drawSphere fuel i p) as [p1| |why]; [|reflexivity|reflexivity].
  rewrite !bind_Done. apply IH.
Qed.

Lemma drawSpheres_world : forall fuel p,
  bind (drawSpheres fuel p) (fun q => Done (world q)) =
  renderSpheres fuel (world p).
Proof. intros. apply drawSpheres_from_world. Qed.

(** No round in progress: every sphere is drawn with the shader at hand. *)
Lemma drawSpheres_from_idle : forall fuel n i p,
  GameState (app (world p)) = false ->
  drawSpheres_from fuel n i p =
    Done {| world := world p; shaderID := shaderID p;
            drawn := drawn p ++ map (fun k => (k, shaderID p)) (indices i n) |}.
Proof.
  induction n as [|n IH]; intros i p Hg.
  - simpl. rewrite app_nil_r. now destruct p.
  - cbn [drawSpheres_from]. unfold drawSphere. rewrite Hg, !bind_Done.
    rewrite IH by exact Hg. cbn [world shaderID drawn fst snd].
    rewrite indices_S. cbn [map]. now rewrite <- app_assoc.
Qed.


Lemma drawSpheres_from_calm : forall fuel n i p,
  GameState (app (world p)) = true ->
  collider (app (world p)) = false ->
  drawSpheres_from fuel n i p =
    Done {| world := world p;
            shaderID := match n with
                        | O => shaderID p
                        | S m => shader_of (to_unsigned (selectedSphere (app (world p))))
                                           (i + Z.of_nat m)
                        end;
            drawn := drawn p ++
                     map (fun k => (k, shader_of (to_unsigned (selectedSphere (app (world p)))) k))
                         (indices i n) |}.
Proof.
  induction n as [|n IH]; intros i p Hg Hc.
  - simpl. rewrite app_nil_r. now destruct p.
  - cbn [drawSpheres_from]. unfold drawSphere. rewrite Hg, Hc.
    assert (Hstep : forall s,
      bind (Done (world p, s)) (fun s0 : World * ShaderID =>
        Done {| world := fst s0; shaderID := snd s0; drawn := drawn p ++ [(i, snd s0)] |})
      = Done {| world := world p; shaderID := s; drawn := drawn p ++ [(i, s)] |})
      by reflexivity.
    assert (E : (if i =? to_unsigned (selectedSphere (app (world p)))
                 then Done (world p, highlightID) else Done (world p, unhighlightID))
                = Done (world p, shader_of (to_unsigned (selectedSphere (app (world p)))) i)).
    { unfold shader_of. now destruct (i =? _). }
    rewrite E, Hstep, bind_Done, IH by assumption.
    cbn [world shaderID drawn]. rewrite indices_S. cbn [map].
    rewrite <- app_assoc. cbn [Datatypes.app]. f_equal. f_equal.
    destruct n as [|m]; [now rewrite Z.add_0_r|]. f_equal. lia.
Qed.


Lemma drawSpheres_from_hit : forall fuel n i p w1,
  GameState (app (world p)) = true ->
  collider (app (world p)) = true ->
  0 <= selectedSphere (app (world p)) < NUM_SPHERES ->
  i <= selectedSphere (app (world p)) < i + Z.of_nat n ->
  hit fuel (world p) = Done w1 ->
  drawSpheres_from fuel n i p =
    Done {| world := w1;
            shaderID := shader_after_hit (selectedSphere (app (world p)))
                                         (selectedSphere (app w1))
                                         (i + Z.of_nat n - 1);
            drawn := drawn p ++
                     map (fun k => (k, shader_after_hit (selectedSphere (app (world p)))
                                                        (selectedSphere (app w1)) k))
                         (indices i n) |}.
Proof.
  induction n as [|n IH]; intros i p w1 Hg Hc Hr Hi Hh; [lia|].
  cbn [drawSpheres_from]. unfold drawSphere.
  rewrite Hg, Hc, (to_unsigned_index Hr).
  pose proof (hit_done _ _ Hh) as (k0 & _ & _ & Hw1).
  assert (Hj : 0 <= selectedSphere (app w1) < NUM_SPHERES).
  { rewrite Hw1. fields. apply random_number_range. }
  assert (Hg1 : GameState (app w1) = true) by (rewrite Hw1; fields; exact Hg).
  assert (Hc1 : collider (app w1) = false) by (rewrite Hw1; reflexivity).
  clear Hw1.
  assert (Hhead : shader_after_hit (selectedSphere (app (world p)))
                                   (selectedSphere (app w1)) i = unhighlightID).
  { unfold shader_after_hit.
    replace (selectedSphere (app (world p)) <? i) with false
      by (symmetry; apply Z.ltb_ge; lia).
    now rewrite andb_false_r. }
  assert (Htail : forall k, selectedSphere (app (world p)) < k ->
            shader_of (selectedSphere (app w1)) k =
            shader_after_hit (selectedSphere (app (world p)))
                             (selectedSphere (app w1)) k).
  { intros k Hk. unfold shader_after_hit, shader_of.
    replace (selectedSphere (app (world p)) <? k) with true
      by (symmetry; apply Z.ltb_lt; lia).
    now rewrite andb_true_r. }
  destruct (i =? selectedSphere (app (world p))) eqn:E.
  - apply Z.eqb_eq in E. rewrite Hh, !bind_Done. cbn [fst snd].
    rewrite drawSpheres_from_calm by assumption.
    cbn [world shaderID drawn]. rewrite (to_unsigned_index Hj), indices_S.
    cbn [map]. rewrite <- app_assoc, Hhead.
    assert (Hmap :
      map (fun k => (k, shader_of (selectedSphere (app w1)) k)) (indices (i + 1) n) =
      map (fun k => (k, shader_after_hit (selectedSphere (app (world p)))
                                         (selectedSphere (app w1)) k))
          (indices (i + 1) n)).
    { apply map_ext_in. intros k Hk. apply indices_range in Hk.
      f_equal. apply Htail. lia. }
    rewrite Hmap.
    assert (Hlast :
      match n with
      | O => unhighlightID
      | S m => shader_of (selectedSphere (app w1)) (i + 1 + Z.of_nat m)
      end =
      shader_after_hit (selectedSphere (app (world p))) (selectedSphere (app w1))
                       (i + Z.of_nat (S n) - 1)).
    { destruct n as [|m].
      - replace (i + Z.of_nat 1 - 1) with i by lia. now rewrite Hhead.
      - replace (i + Z.of_nat (S (S m)) - 1) with (i + 1 + Z.of_nat m) by lia.
        apply Htail. lia. }
    rewrite Hlast. reflexivity.
  - apply Z.eqb_neq in E. rewrite !bind_Done. cbn [fst snd].
    rewrite (IH (i + 1) _ w1); cbn [world shaderID drawn]; auto; [|lia].
    rewrite indices_S. cbn [map]. rewrite <- app_assoc. cbn [Datatypes.app]. rewrite Hhead.
    f_equal. f_equal. f_equal. lia.
Qed.

Arguments renderScene_drawing : simpl never.

Lemma last_sphere : Z.to_nat NUM_SPHERES = S 124.
Proof. reflexivity. Qed.

Lemma drawSpheres_idle : forall fuel p,
  GameState (app (world p)) = false ->
  drawSpheres fuel p =
    Done {| world := world p; shaderID := shaderID p;
            drawn := drawn p ++ map (fun k => (k, shaderID p)) all_spheres |}.
Proof. intros. now apply drawSpheres_from_idle. Qed.

Lemma drawSpheres_calm : forall fuel p,
  GameState (app (world p)) = true ->
  collider (app (world p)) = false ->
  0 <= selectedSphere (app (world p)) < NUM_SPHERES ->
  drawSpheres fuel p =
    Done {| world := world p;
            shaderID := shader_of (selectedSphere (app (world p))) (NUM_SPHERES - 1);
            drawn := drawn p ++
                     map (fun k => (k, shader_of (selectedSphere (app (world p))) k))
                         all_spheres |}.
Proof.
  intros fuel p Hg Hc Hr. unfold drawSpheres, all_spheres.
  rewrite drawSpheres_from_calm by assumption.
  rewrite (to_unsigned_index Hr), last_sphere. reflexivity.
Qed.

Lemma drawSpheres_hit : forall fuel p w1,
  GameState (app (world p)) = true ->
  collider (app (world p)) = true ->
  0 <= selectedSphere (app (world p)) < NUM_SPHERES ->
  hit fuel (world p) = Done w1 ->
  drawSpheres fuel p =
    Done {| world := w1;
            shaderID := shader_after_hit (selectedSphere (app (world p)))
                                         (selectedSphere (app w1)) (NUM_SPHERES - 1);
            drawn := drawn p ++
                     map (fun k => (k, shader_after_hit (selectedSphere (app (world p)))
                                                        (selectedSphere (app w1)) k))
                         all_spheres |}.
Proof.
  intros fuel p w1 Hg Hc Hr Hh. unfold drawSpheres, all_spheres.
  now rewrite (@drawSpheres_from_hit fuel (Z.to_nat NUM_SPHERES) 0 p w1).
Qed.

Lemma renderSphere_GameState : forall fuel i w w',
  renderSphere fuel i w = Done w' -> GameState (app w') = GameState (app w).
Proof.
  intros fuel i w w' H. unfold renderSphere in H.
  destruct (GameState (app w)) eqn:Hg; [|injection H as <-; exact Hg].
  destruct (i =? _); [|injection H as <-; exact Hg].
  destruct (collider (app w)); [|injection H as <-; exact Hg].
  apply hit_done in H. destruct H as (k & _ & _ & ->). exact Hg.
Qed.

Lemma renderSpheres_from_GameState : forall fuel n i w w',
  renderSpheres_from fuel n i w = Done w' -> GameState (app w') = GameState (app w).
Proof.
  induction n as [|n IH]; intros i w w' H.
  - simpl in H. now injection H as <-.
  - cbn [renderSpheres_from] in H.
    destruct (renderSphere fuel i w) as [w1| |] eqn:E;
      [rewrite bind_Done in H|discriminate H|discriminate H].
    rewrite (IH _ _ _ H). exact (renderSphere_GameState _ _ _ E).
Qed.

Lemma renderSpheres_GameState : forall fuel w w',
  renderSpheres fuel w = Done w' -> GameState (app w') = GameState (app w).
Proof. intros fuel w w' H. exact (renderSpheres_from_GameState _ _ _ _ H). Qed.

Section Passes.

Context {G : GLM}.
Variable CLOCKS_PER_SEC : Z.

(** The call with its draw calls is the call of the game, draw calls
    forgotten. *)
Lemma renderScene_drawing_world : forall fuel f w shader,
  bind (renderScene_drawing CLOCKS_PER_SEC fuel f w shader)
       (fun q => Done (world q)) =
  renderScene CLOCKS_PER_SEC fuel f w.
Proof.
  intros fuel f w shader. unfold renderScene_drawing, renderScene.
  destruct (startGame fuel f w) as [w1| |why]; [|reflexivity|reflexivity].
  rewrite !bind_Done.
  destruct (gameOn CLOCKS_PER_SEC f w1) as [w2| |why]; [|reflexivity|reflexivity].
  rewrite !bind_Done. apply drawSpheres_world.
Qed.

Lemma renderScene_drawing_idle : forall fuel f w w' shader,
  renderScene CLOCKS_PER_SEC fuel f w = Done w' ->
  GameState (app w') = false ->
  renderScene_drawing CLOCKS_PER_SEC fuel f w shader =
    Done {| world := w'; shaderID := shader;
            drawn := map (fun k => (k, shader)) all_spheres |}.
Proof.
  intros fuel f w w' shader H Hg'. unfold renderScene_drawing, renderScene in *.
  destruct (startGame fuel f w) as [w1| |]; [|discriminate H|discriminate H].
  rewrite bind_Done in *.
  destruct (gameOn CLOCKS_PER_SEC f w1) as [w2| |]; [|discriminate H|discriminate H].
  rewrite bind_Done in *.
  assert (Hg2 : GameState (app w2) = false).
  { rewrite <- (renderSpheres_GameState _ _ H). exact Hg'. }
  rewrite renderSpheres_calm in H by now left. injection H as <-.
  now rewrite drawSpheres_idle.
Qed.

Lemma renderScene_drawing_miss : forall fuel f w pos shader,
  GameState (app w) = true ->
  collider (app w) = false ->
  vector_at spheres_positions (selectedSphere (app w)) = Some pos ->
  time_is_up (elapsed CLOCKS_PER_SEC (clock_now f) (start (app w))) = false ->
  touching f (dist (LHOrientationPosition f) pos (handPosition f ovrHand_Right))
    = false ->
  exists w',
    renderScene CLOCKS_PER_SEC fuel f w = Done w' /\
    selectedSphere (app w') = selectedSphere (app w) /\
    renderScene_drawing CLOCKS_PER_SEC fuel f w shader =
      Done {| world := w';
              shaderID := shader_of (selectedSphere (app w)) (NUM_SPHERES - 1);
              drawn := map (fun k => (k, shader_of (selectedSphere (app w)) k))
                           all_spheres |}.
Proof.
  intros fuel f w pos shader Hg Hc Hp Hup Hd.
  eexists. split; [apply (renderScene_miss CLOCKS_PER_SEC fuel f w Hg Hc Hp Hup Hd)|].
  split; [reflexivity|].
  unfold renderScene_drawing.
  rewrite startGame_skipped by now left.
  rewrite bind_Done, (gameOn_active CLOCKS_PER_SEC f w Hg Hp), bind_Done.
  rewrite Hup, Hc, Hd. rewrite drawSpheres_calm; try reflexivity.
  fields. apply vector_at_spheres. now exists pos.
Qed.

Lemma renderScene_drawing_hit : forall k fuel f w pos shader,
  GameState (app w) = true ->
  vector_at spheres_positions (selectedSphere (app w)) = Some pos ->
  time_is_up (elapsed CLOCKS_PER_SEC (clock_now f) (start (app w))) = false ->
  touching f (dist (LHOrientationPosition f) pos (handPosition f ovrHand_Right))
    = true ->
  first_fresh (rand_src w) (selectedSphere (app w)) k ->
  (k <= fuel)%nat ->
  score (app w) < INT_MAX ->
  exists w',
    renderScene CLOCKS_PER_SEC fuel f w = Done w' /\
    selectedSphere (app w') = random_number (rand_src w) k /\
    renderScene_drawing CLOCKS_PER_SEC fuel f w shader =
      Done {| world := w';
              shaderID := shader_after_hit (selectedSphere (app w))
                                           (selectedSphere (app w')) (NUM_SPHERES - 1);
              drawn := map (fun i => (i, shader_after_hit (selectedSphere (app w))
                                                          (selectedSphere (app w')) i))
                           all_spheres |}.
Proof.
  intros k fuel f w pos shader Hg Hp Hup Hd Hk Hfuel Hs.
  assert (Hr : 0 <= selectedSphere (app w) < NUM_SPHERES).
  { apply vector_at_spheres. now exists pos. }
  eexists. split;
    [apply (renderScene_hit CLOCKS_PER_SEC f w Hg Hp Hup Hd Hk Hfuel Hs)|].
  split; [reflexivity|].
  unfold renderScene_drawing.
  rewrite startGame_skipped by now left.
  rewrite bind_Done, (gameOn_active CLOCKS_PER_SEC f w Hg Hp), bind_Done.
  rewrite Hup, Hd, orb_true_r.
  erewrite drawSpheres_hit; try reflexivity; try exact Hr.
  rewrite (@hit_fresh k fuel); auto.
Qed.

(** X6. In a call with a round in progress, time remaining and nothing
    touched, the loop draws all 125 spheres in index order, the selected
    sphere with the highlight shader and every other sphere with the plain
    one; it leaves the highlight shader selected exactly when the target is
    the last sphere. *)
Theorem only_the_target_is_highlighted : forall fuel f w pos shader,
  GameState (app w) = true ->
  collider (app w) = false ->
  vector_at spheres_positions (selectedSphere (app w)) = Some pos ->
  time_is_up (elapsed CLOCKS_PER_SEC (clock_now f) (start (app w))) = false ->
  touching f (dist (LHOrientationPosition f) pos (handPosition f ovrHand_Right))
    = false ->
  exists w',
    renderScene CLOCKS_PER_SEC fuel f w = Done w' /\
    selectedSphere (app w') = selectedSphere (app w) /\
    renderScene_drawing CLOCKS_PER_SEC fuel f w shader =
      Done {| world := w';
              shaderID := shader_of (selectedSphere (app w)) (NUM_SPHERES - 1);
              drawn := map (fun k => (k, shader_of (selectedSphere (app w)) k))
                           all_spheres |}.
Proof.
  intros fuel f w pos shader.
  exact (@renderScene_drawing_miss fuel f w pos shader).
Qed.

(** X7. In the call that scores, the sphere that was hit is drawn plain,
    and the new target is drawn highlighted in that same pass only if its
    index is larger than the index of the sphere that was hit: the loop has
    already passed the smaller indices. *)
Theorem new_target_shows_only_behind_the_old_one : forall k fuel f w pos shader,
  GameState (app w) = true ->
  vector_at spheres_positions (selectedSphere (app w)) = Some pos ->
  time_is_up (elapsed CLOCKS_PER_SEC (clock_now f) (start (app w))) = false ->
  touching f (dist (LHOrientationPosition f) pos (handPosition f ovrHand_Right))
    = true ->
  first_fresh (rand_src w) (selectedSphere (app w)) k ->
  (k <= fuel)%nat ->
  score (app w) < INT_MAX ->
  exists w',
    renderScene CLOCKS_PER_SEC fuel f w = Done w' /\
    selectedSphere (app w') = random_number (rand_src w) k /\
    renderScene_drawing CLOCKS_PER_SEC fuel f w shader =
      Done {| world := w';
              shaderID := shader_after_hit (selectedSphere (app w))
                                           (selectedSphere (app w')) (NUM_SPHERES - 1);
              drawn := map (fun i => (i, shader_after_hit (selectedSphere (app w))
                                                          (selectedSphere (app w')) i))
                           all_spheres |}.
Proof.
  intros k fuel f w pos shader.
  exact (@renderScene_drawing_hit k fuel f w pos shader).
Qed.

(** X8. A call that ends with no round in progress (idle, or the call in
    which the time runs out) makes no [highlight] or [unhighlight] call: it
    draws all 125 spheres with the shader the previous call left selected,
    and leaves that shader selected. *)
Theorem idle_call_draws_with_the_shader_at_hand : forall fuel f w w' shader,
  renderScene CLOCKS_PER_SEC fuel f w = Done w' ->
  GameState (app w') = false ->
  renderScene_drawing CLOCKS_PER_SEC fuel f w shader =
    Done {| world := w'; shaderID := shader;
            drawn := map (fun k => (k, shader)) all_spheres |}.
Proof.
  intros fuel f w w' shader.
  exact (@renderScene_drawing_idle fuel f w w' shader).
Qed.

End Passes.

Section Afterglow.

Context {G : GLM}.
Variable CLOCKS_PER_SEC : Z.

(** X9. What the grid looks like once a round is over depends on the last
    target: after a call of a round with nothing touched, a call that ends
    with no round in progress draws every sphere highlighted if the target
    was the last sphere (index 124), and every sphere plain otherwise. *)
Theorem idle_grid_keeps_the_last_shader : forall fuel f f' w pos shader p w',
  GameState (app w) = true ->
  collider (app w) = false ->
  vector_at spheres_positions (selectedSphere (app w)) = Some pos ->
  time_is_up (elapsed CLOCKS_PER_SEC (clock_now f) (start (app w))) = false ->
  touching f (dist (LHOrientationPosition f) pos (handPosition f ovrHand_Right))
    = false ->
  renderScene_drawing CLOCKS_PER_SEC fuel f w shader = Done p ->
  renderScene CLOCKS_PER_SEC fuel f' (world p) = Done w' ->
  GameState (app w') = false ->
  renderScene_drawing CLOCKS_PER_SEC fuel f' (world p) (shaderID p) =
    Done {| world := w';
            shaderID := if selectedSphere (app w) =? NUM_SPHERES - 1
                        then highlightID else unhighlightID;
            drawn := map (fun k => (k, if selectedSphere (app w) =? NUM_SPHERES - 1
                                       then highlightID else unhighlightID))
                         all_spheres |}.
Proof.
  intros fuel f f' w pos shader p w' Hg Hc Hp Hup Hd Hp1 H' Hg'.
  destruct (@renderScene_drawing_miss _ CLOCKS_PER_SEC fuel f w pos shader
              Hg Hc Hp Hup Hd) as (w1 & _ & _ & Hdraw).
  rewrite Hdraw in Hp1. injection Hp1 as <-. cbn [world shaderID] in *.
  rewrite (@renderScene_drawing_idle _ CLOCKS_PER_SEC fuel f' w1 w' _ H' Hg').
  unfold shader_of. rewrite (Z.eqb_sym 124). reflexivity.
Qed.

End Afterglow.

(* ------------------------------------------------------------------ *)
(** ** The frame loop *)

Lemma deliver_spec : forall a e,
  deliver a e =
    {| game := game a;
       shouldClose := if closes e then 1 else shouldClose a;
       frame := frame a;
       recentred := if recentres e then S (recentred a) else recentred a |}.
Proof.
  intros [g c n r] [key sc action mods | b action mods | ]; try reflexivity.
  unfold deliver, closes, recentres, KeyCallback, RiftApp.onKey, GlfwApp.onKey.
  rewrite (Z.eqb_sym GLFW_PRESS action).
  destruct (action =? GLFW_PRESS); [|reflexivity].
  destruct (key =? GLFW_KEY_R) eqn:ER.
  - apply Z.eqb_eq in ER. subst key. reflexivity.
  - simpl. destruct (key =? GLFW_KEY_ESCAPE); reflexivity.
Qed.

Lemma glfwPollEvents_spec : forall evs a,
  glfwPollEvents evs a =
    {| game := game a;
       shouldClose := if existsb closes evs then 1 else shouldClose a;
       frame := frame a;
       recentred := (recentred a + length (filter recentres evs))%nat |}.
Proof.
  unfold glfwPollEvents. induction evs as [|e evs IH]; intros a.
  - simpl. rewrite Nat.add_0_r. now destruct a.
  - cbn [fold_left]. rewrite IH, deliver_spec. cbn [game shouldClose frame recentred].
    cbn [existsb filter]. destruct (closes e); cbn [orb].
    + destruct (existsb closes evs); f_equal;
        destruct (recentres e); cbn [length]; lia.
    + f_equal. destruct (recentres e); cbn [length]; lia.
Qed.

Section Loop.

Context {G : GLM}.
Variable CLOCKS_PER_SEC : Z.

Lemma iteration_spec : forall fuel fr a,
  iteration CLOCKS_PER_SEC fuel fr a =
    (g <- draw CLOCKS_PER_SEC fuel (left_eye fr) (right_eye fr) (game a) ;;
     Done {| game := g;
             shouldClose := if existsb closes (events fr) then 1 else shouldClose a;
             frame := to_unsigned (frame a + 1);
             recentred := (recentred a + length (filter recentres (events fr)))%nat |}).
Proof.
  intros fuel fr a. unfold iteration. rewrite glfwPollEvents_spec. reflexivity.
Qed.

Lemma frameLoop_closed : forall fuel frames a,
  shouldClose a <> 0 -> frameLoop CLOCKS_PER_SEC fuel frames a = Done (true, a).
Proof.
  intros fuel frames a H. apply Z.eqb_neq in H.
  destruct frames; simpl; now rewrite H.
Qed.

Lemma frameLoop_step : forall fuel fr rest a,
  shouldClose a = 0 ->
  frameLoop CLOCKS_PER_SEC fuel (fr :: rest) a =
    (a1 <- iteration CLOCKS_PER_SEC fuel fr a ;;
     frameLoop CLOCKS_PER_SEC fuel rest a1).
Proof. intros fuel fr rest a H. cbn [frameLoop]. now rewrite H. Qed.

Lemma to_unsigned_succ : forall x n,
  to_unsigned (to_unsigned (x + 1) + n) = to_unsigned (x + (1 + n)).
Proof.
  intros x n. unfold to_unsigned. rewrite Zplus_mod_idemp_l. f_equal. lia.
Qed.

(** X10. While no escape press and no close request is polled, the loop
    of [GlfwApp::run] does not exit, whatever other keys (R included) or
    mouse buttons arrive: after the frames provided the close flag is still
    0, [frame] has advanced by their number (modulo 2^32), and the tracking
    origin was recentred once per press of R. *)
Theorem loop_runs_until_something_closes : forall fuel frames a exited a',
  shouldClose a = 0 ->
  0 <= frame a < 2 ^ 32 ->
  Forall (fun fr => existsb closes (events fr) = false) frames ->
  frameLoop CLOCKS_PER_SEC fuel frames a = Done (exited, a') ->
  exited = false /\
  shouldClose a' = 0 /\
  frame a' = to_unsigned (frame a + Z.of_nat (length frames)) /\
  recentred a' =
    (recentred a + length (filter recentres (flat_map events frames)))%nat.
Proof.
  intros fuel frames. induction frames as [|fr rest IH];
    intros a exited a' Hc Hf0 Hall H.
  - simpl in H. rewrite Hc in H. simpl in H. injection H as <- <-.
    cbn [length Z.of_nat flat_map filter]. rewrite Z.add_0_r, Nat.add_0_r.
    unfold to_unsigned. now rewrite Z.mod_small.
  - rewrite frameLoop_step in H by exact Hc. rewrite iteration_spec in H.
    inversion Hall as [|? ? Hfr Hrest]; subst.
    destruct (draw CLOCKS_PER_SEC fuel (left_eye fr) (right_eye fr) (game a))
      as [g| |]; [|discriminate H|discriminate H].
    rewrite !bind_Done, Hfr in H.
    apply IH in H; [|exact Hc| |exact Hrest].
    + cbn [game shouldClose frame recentred] in H.
      destruct H as (-> & Hc' & Hf & Hr). repeat split; auto.
      * rewrite Hf. cbn [length]. rewrite Nat2Z.inj_succ.
        unfold to_unsigned. rewrite Zplus_mod_idemp_l. f_equal. lia.
      * rewrite Hr. cbn [flat_map]. rewrite filter_app, length_app. lia.
    + cbn [frame]. unfold to_unsigned. apply Z.mod_pos_bound. lia.
Qed.

(** X11. The frame in which escape is pressed (or the window closed) is
    still drawn, and it is the last one: the loop exits after it with the
    close flag at 1, and no later frame is run. *)
Theorem closing_frame_is_drawn_and_is_the_last : forall fuel before fr after a g a1,
  shouldClose a = 0 ->
  Forall (fun fr => existsb closes (events fr) = false) before ->
  existsb closes (events fr) = true ->
  frameLoop CLOCKS_PER_SEC fuel before a = Done (false, a1) ->
  draw CLOCKS_PER_SEC fuel (left_eye fr) (right_eye fr) (game a1) = Done g ->
  frameLoop CLOCKS_PER_SEC fuel (before ++ fr :: after) a =
    Done (true,
          {| game := g;
             shouldClose := 1;
             frame := to_unsigned (frame a1 + 1);
             recentred := (recentred a1 + length (filter recentres (events fr)))%nat |}).
Proof.
  intros fuel before. induction before as [|b rest IH];
    intros fr after a g a1 Hc Hall Hfr Hb Hd.
  - simpl in Hb. rewrite Hc in Hb. simpl in Hb. injection Hb as <-.
    cbn [Datatypes.app]. rewrite frameLoop_step by exact Hc.
    rewrite iteration_spec, Hd, !bind_Done, Hfr.
    now apply frameLoop_closed.
  - inversion Hall as [|? ? Hbn Hrest]; subst.
    cbn [Datatypes.app]. rewrite frameLoop_step in * by exact Hc.
    rewrite iteration_spec in *.
    destruct (draw CLOCKS_PER_SEC fuel (left_eye b) (right_eye b) (game a))
      as [g0| |]; [|discriminate Hb|discriminate Hb].
    rewrite !bind_Done, Hbn in *.
    apply (IH fr after _ g a1); auto.
Qed.

Lemma iteration_reachable : forall fuel fr a a1,
  reachable CLOCKS_PER_SEC (game a) ->
  iteration CLOCKS_PER_SEC fuel fr a = Done a1 ->
  reachable CLOCKS_PER_SEC (game a1).
Proof.
  intros fuel fr a a1 Hr H. rewrite iteration_spec in H.
  destruct (draw CLOCKS_PER_SEC fuel (left_eye fr) (right_eye fr) (game a))
    as [g| |] eqn:E; [|discriminate H|discriminate H].
  rewrite bind_Done in H. injection H as <-. cbn [game].
  exact (@draw_reachable _ _ _ _ _ _ _ Hr E).
Qed.

(** X12. However the frame loop goes (key events, two calls of
    [renderScene] per frame), the game it carries is one the invariant of
    [renderScene] speaks of. *)
Theorem frame_loop_keeps_the_game_reachable : forall fuel frames a exited a',
  reachable CLOCKS_PER_SEC (game a) ->
  frameLoop CLOCKS_PER_SEC fuel frames a = Done (exited, a') ->
  reachable CLOCKS_PER_SEC (game a').
Proof.
  intros fuel frames. induction frames as [|fr rest IH]; intros a exited a' Hr H.
  - simpl in H. destruct (shouldClose a =? 0); injection H as <- <-; exact Hr.
  - cbn [frameLoop] in H. destruct (shouldClose a =? 0).
    + destruct (iteration CLOCKS_PER_SEC fuel fr a) as [a1| |] eqn:E;
        [|discriminate H|discriminate H].
      rewrite bind_Done in H.
      exact (IH _ _ _ (@iteration_reachable _ _ _ _ Hr E) H).
    + injection H as <- <-. exact Hr.
Qed.

End Loop.

(* ------------------------------------------------------------------ *)
(** ** Conversions *)

(** X13. [ovr::toGlm] and [ovr::fromGlm] on matrices are inverse to each
    other, and [toGlm] gives the same matrix in GLM's indexing: component
    [r] of column [c] is [M[r][c]]. *)
Theorem matrix_round_trip : forall (om : ovrMatrix4f) (m : Glm098.mat),
  ovr.fromGlm_mat4 (ovr.toGlm_Matrix4f om) = om /\
  ovr.toGlm_Matrix4f (ovr.fromGlm_mat4 m) = m /\
  forall r c, (r < 4)%nat -> (c < 4)%nat ->
    component (column (ovr.toGlm_Matrix4f om) c) r = component (row om r) c.
Proof.
  intros [[a0 a1 a2 a3] [b0 b1 b2 b3] [c0 c1 c2 c3] [d0 d1 d2 d3]]
         [[e0 e1 e2 e3] [g0 g1 g2 g3] [h0 h1 h2 h3] [k0 k1 k2 k3]].
  split; [reflexivity|]. split; [reflexivity|].
  intros r c Hr Hc.
  destruct r as [|[|[|[|r]]]]; try lia;
  destruct c as [|[|[|[|c]]]]; try lia; reflexivity.
Qed.

(** X14. [ovr::toGlm] and [ovr::fromGlm] on sizes are inverse to each
    other on every [int] and every [unsigned int], negative sizes
    included. *)
Theorem size_round_trip : forall (ov : ovrSizei) (v : uvec2),
  (- 2 ^ 31 <= Size_w ov < 2 ^ 31 -> - 2 ^ 31 <= Size_h ov < 2 ^ 31 ->
   ovr.fromGlm_uvec2 (ovr.toGlm_Sizei ov) = ov) /\
  (0 <= ux v < 2 ^ 32 -> 0 <= uy v < 2 ^ 32 ->
   ovr.toGlm_Sizei (ovr.fromGlm_uvec2 v) = v).
Proof.
  assert (S : forall z, - 2 ^ 31 <= z < 2 ^ 31 -> to_signed (to_unsigned z) = z).
  { intros z Hz. unfold to_signed, to_unsigned.
    destruct (Z.ltb_spec (z mod 2 ^ 32) (2 ^ 31)) as [H|H].
    - destruct (Z.lt_ge_cases z 0) as [Hn|Hn].
      + rewrite <- (Z.mod_add z 1 (2 ^ 32)) in H by lia.
        rewrite Z.mod_small in H by lia. lia.
      + apply Z.mod_small. lia.
    - destruct (Z.lt_ge_cases z 0) as [Hn|Hn].
      + rewrite <- (Z.mod_add z 1 (2 ^ 32)) by lia.
        rewrite Z.mod_small by lia. lia.
      + rewrite Z.mod_small in H by lia. lia. }
  assert (U : forall u, 0 <= u < 2 ^ 32 -> to_unsigned (to_signed u) = u).
  { intros u Hu. unfold to_signed, to_unsigned.
    destruct (Z.ltb_spec u (2 ^ 31)) as [H|H].
    - apply Z.mod_small. lia.
    - replace (u - 2 ^ 32) with (u + (-1) * 2 ^ 32) by lia.
      rewrite Z.mod_add by lia. apply Z.mod_small. lia. }
  intros [w h] [x y]. split; intros H1 H2; simpl in *;
    unfold ovr.fromGlm_uvec2, ovr.toGlm_Sizei; simpl.
  - now rewrite !S.
  - now rewrite !U.
Qed.

(* ------------------------------------------------------------------ *)
(** ** The layout of the render target *)

(** X15. The constructor of [RiftApp] lays the two eyes side by side in
    one render target: the right viewport starts where the left one ends,
    both start at the bottom, the target is as wide as both together and as
    high as the higher one, and the mirror window is a quarter of it each
    way (rounded down). *)
Theorem eyes_sit_side_by_side : forall size0 leftSize rightSize,
  0 <= ux size0 -> 0 <= uy size0 < 2 ^ 32 ->
  0 <= Size_w leftSize -> 0 <= Size_h leftSize < 2 ^ 32 ->
  0 <= Size_w rightSize -> 0 <= Size_h rightSize < 2 ^ 32 ->
  ux size0 + Size_w leftSize + Size_w rightSize < 2 ^ 31 ->
  let l := RiftApp_layout size0 leftSize rightSize in
  Size (Viewport_Left l) = leftSize /\
  Size (Viewport_Right l) = rightSize /\
  Pos_x (Viewport_Left l) = ux size0 /\
  Pos_x (Viewport_Right l) = Pos_x (Viewport_Left l) + Size_w leftSize /\
  Pos_y (Viewport_Left l) = 0 /\ Pos_y (Viewport_Right l) = 0 /\
  ux (renderTargetSize l) = Pos_x (Viewport_Right l) + Size_w rightSize /\
  uy (renderTargetSize l) =
    Z.max (uy size0) (Z.max (Size_h leftSize) (Size_h rightSize)) /\
  mirrorSize l = Uvec2 (ux (renderTargetSize l) / 4) (uy (renderTargetSize l) / 4).
Proof.
  intros [x0 y0] [wl hl] [wr hr]; simpl. intros Hx0 Hy0 Hwl Hhl Hwr Hhr Hsum.
  assert (U : forall z, 0 <= z < 2 ^ 32 -> to_unsigned z = z).
  { intros z Hz. apply Z.mod_small. exact Hz. }
  assert (S : forall z, 0 <= z < 2 ^ 31 -> to_signed z = z).
  { intros z Hz. unfold to_signed.
    destruct (Z.ltb_spec z (2 ^ 31)); lia. }
  unfold RiftApp_layout, place_eye. simpl.
  rewrite !(U wl), !(U hl), !(U wr), !(U hr) by lia.
  rewrite !(U (x0 + wl)) by lia. rewrite !(U (x0 + wl + wr)) by lia.
  rewrite !(S x0), !(S (x0 + wl)) by lia.
  repeat split; lia.
Qed.

(* ------------------------------------------------------------------ *)
(** ** Setting up *)

(** The set-up, unfolded to the tests it makes. *)
Ltac setup_unfold h :=
  unfold all_well, calls_after_glfwSetErrorCallback, main_setup, run_setup,
    GlfwApp_new, RiftManagerApp_new, preCreate, createRenderingTarget,
    createWindow, postCreate, RiftApp_initGl;
  rewrite ?(Z.eqb_sym 0 (glewInit h)), ?Z.ltb_irrefl;
  cbv [forallb quiet_during and_then glfw_call FAIL_if FAIL ready leave
       ErrorCallback glfwSetErrorCallback errorCallback andb negb orb].

(** The tests of the set-up one after the other, in the order of the
    source; [failed] closes the case in which a test fails. *)
Ltac setup_cases h failed :=
  setup_unfold h;
  destruct (glfwError h Init) as [[? ?]|];
  (destruct (OVR_SUCCESS (ovr_Initialize h)); [|failed]);
  (destruct (glfwInit h =? 0); [failed|]);
  (destruct (OVR_SUCCESS (ovr_Create h)); [|failed]);
  (destruct (glfwError h (WindowHint GLFW_DEPTH_BITS 16)) as [[? ?]|]; [failed|]);
  (destruct (glfwError h (WindowHint GLFW_CONTEXT_VERSION_MAJOR 4)) as [[? ?]|];
     [failed|]);
  (destruct (glfwError h (WindowHint GLFW_CONTEXT_VERSION_MINOR 1)) as [[? ?]|];
     [failed|]);
  (destruct (glfwError h (WindowHint GLFW_OPENGL_PROFILE GLFW_OPENGL_CORE_PROFILE))
     as [[? ?]|]; [failed|]);
  (destruct (glfwError h (WindowHint GLFW_OPENGL_DEBUG_CONTEXT 1)) as [[? ?]|];
     [failed|]);
  (destruct (glfwError h CreateWindow) as [[? ?]|]; [failed|]);
  (let W := fresh "W" in
   destruct (glfwCreateWindow h =? 0) eqn:W;
     [failed | cbv beta iota; rewrite ?W]);
  (destruct (glfwError h SetWindowUserPointer) as [[? ?]|]; [failed|]);
  (destruct (glfwError h SetKeyCallback) as [[? ?]|]; [failed|]);
  (destruct (glfwError h SetMouseButtonCallback) as [[? ?]|]; [failed|]);
  (destruct (glfwError h MakeContextCurrent) as [[? ?]|]; [failed|]);
  (destruct (glewInit h =? 0); [|failed]);
  (destruct (glfwError h (SwapInterval 0)) as [[? ?]|]; [failed|]);
  (destruct (OVR_SUCCESS (ovr_CreateTextureSwapChainGL h)); [|failed]);
  (destruct (OVR_SUCCESS (fst (ovr_GetTextureSwapChainLength h))); [|failed]);
  (destruct (snd (ovr_GetTextureSwapChainLength h) =? 0); [failed|]);
  (destruct (OVR_SUCCESS (ovr_CreateMirrorTextureGL h)); [|failed]).

Lemma quiet_during_true : forall h c,
  quiet_during h c = true -> glfwError h c = None.
Proof.
  intros h c. unfold quiet_during.
  destruct (glfwError h c); [discriminate|reflexivity].
Qed.

(** When all goes well the window of the host reaches the loop. *)
Lemma main_setup_all_well : forall h,
  all_well h = true -> main_setup h = Ready (glfwCreateWindow h).
Proof.
  intros h A. unfold all_well, calls_after_glfwSetErrorCallback in A.
  cbn [forallb] in A.
  repeat match goal with
         | H : _ && _ = true |- _ => apply andb_prop in H; destruct H
         | H : quiet_during h _ = true |- _ => apply quiet_during_true in H
         | H : negb _ = true |- _ => apply negb_true_iff in H
         end.
  setup_unfold h.
  repeat (progress (repeat match goal with
                           | H : _ = _ |- _ => progress rewrite H
                           end;
                    cbv beta iota)).
  destruct (glfwError h Init) as [[? ?]|]; reflexivity.
Qed.

(** When something goes wrong an exception is thrown. *)
Lemma main_setup_Throw : forall h,
  all_well h = false -> exists what, main_setup h = Throw what.
Proof.
  intros h. setup_cases h ltac:(intros _; eexists; reflexivity).
  all: intros A; discriminate A.
Qed.

(** An error reported while the window is created is thrown by
    [ErrorCallback], before the returned pointer is looked at. *)
Lemma main_setup_error_creating_window : forall h error description,
  OVR_SUCCESS (ovr_Initialize h) = true ->
  glfwInit h <> 0 ->
  OVR_SUCCESS (ovr_Create h) = true ->
  (forall hint value, glfwError h (WindowHint hint value) = None) ->
  glfwError h CreateWindow = Some (error, description) ->
  main_setup h = Throw (Description description).
Proof.
  intros h error description Hi Hg Hc Hh Hw. apply Z.eqb_neq in Hg.
  setup_unfold h. rewrite Hi, Hg, Hc, !Hh, Hw.
  destruct (glfwError h Init) as [[? ?]|]; reflexivity.
Qed.

(** X16. Setting up fails only by exception.  [main] gets through
    [RiftApp::initGl] exactly when all eight checked answers of the host
    are successes (a swap chain of length 0 counts as a failure) and GLFW
    reports no error during the eleven calls made once [ErrorCallback] is
    set; then it has the window the host created, which is not null.
    Otherwise a [std::runtime_error] leaves [main], and [run] never takes
    its [return -1].  An error GLFW reports during [glfwInit] goes unheard,
    and one it reports while creating the window is thrown with GLFW's own
    description, whatever [glfwCreateWindow] returns. *)
Theorem setup_fails_only_by_exception : forall h,
  (forall code, main_setup h <> Exit code) /\
  (all_well h = true -> main_setup h = Ready (glfwCreateWindow h)) /\
  (all_well h = false -> exists what, main_setup h = Throw what) /\
  (forall window, main_setup h = Ready window ->
     window = glfwCreateWindow h /\ window <> 0 /\ all_well h = true) /\
  (forall error description,
     OVR_SUCCESS (ovr_Initialize h) = true ->
     glfwInit h <> 0 ->
     OVR_SUCCESS (ovr_Create h) = true ->
     (forall hint value, glfwError h (WindowHint hint value) = None) ->
     glfwError h CreateWindow = Some (error, description) ->
     main_setup h = Throw (Description description)).
Proof.
  intros h.
  assert (W : all_well h = true -> glfwCreateWindow h <> 0).
  { unfold all_well. intros H.
    repeat match goal with
           | H : _ && _ = true |- _ => apply andb_prop in H; destruct H
           end.
    match goal with
    | H : negb (glfwCreateWindow h =? 0) = true |- _ =>
        apply negb_true_iff, Z.eqb_neq in H; exact H
    end. }
  split; [|split; [|split; [|split]]].
  - intros code H. destruct (all_well h) eqn:A.
    + rewrite (main_setup_all_well h A) in H. discriminate H.
    + destruct (main_setup_Throw h A) as [what Hw]. congruence.
  - exact (main_setup_all_well h).
  - exact (main_setup_Throw h).
  - intros window H. destruct (all_well h) eqn:A.
    + rewrite (main_setup_all_well h A) in H. injection H as <-. auto.
    + destruct (main_setup_Throw h A) as [what Hw]. congruence.
  - exact (main_setup_error_creating_window h).
Qed.

(* ------------------------------------------------------------------ *)
(** ** The properties above, on the concrete session *)

Lemma sphere_grid_lattice_witness :
  instanceCount = NUM_SPHERES /\
  vector_at (fst sphere_grid) 86 = Some (lattice_point 1 2 3) /\
  vector_at instance_positions 86 =
    Some (translate (mat4_diag f1) (lattice_point 1 2 3)).
Proof.
  apply (@sphere_grid_lattice glm_0_9_8 1 2 3); unfold GRID_SIZE; lia.
Defined.

Lemma only_the_selected_centre_is_in_reach_witness :
  F32.ltb (dist (mat4_diag f1) origin sphere1) threshold = false /\
  F32.ltb (dist (mat4_diag f1) sphere1 sphere1) threshold = true.
Proof.
  split.
  - apply (@only_the_selected_centre_is_in_reach glm_0_9_8 (mat4_diag f1) 0 1);
      vm_compute; reflexivity.
  - apply (@only_the_selected_centre_is_in_reach glm_0_9_8 (mat4_diag f1) 1 1);
      vm_compute; reflexivity.
Defined.

Lemma random_Highlight_returns_iff_a_draw_differs_witness :
  exists fuel w', random_Highlight fuel world1 = Done w'.
Proof.
  apply (proj1 (random_Highlight_returns_iff_a_draw_differs world1)).
  exists 0%nat. vm_compute. discriminate.
Defined.

Lemma console_is_a_faithful_log_witness :
  replay false 0 (cout world2) = Some (true, 1).
Proof.
  exact (@console_is_a_faithful_log glm_0_9_8 ticks world2 world2_reachable).
Defined.

Lemma round_can_score_in_its_first_call_witness :
  renderScene ticks 0 (call origin (answered 0x10) 1000 1000) world0 =
    Done {| app := {| GameState := true;
                      selectedSphere := random_number (rand_src world0) (1 + 0);
                      collider := false;
                      start := 1000;
                      duration := elapsed ticks 1000 1000;
                      score := 1 |};
            cout := cout world0 ++ [GAME_START; Collide_Your_Current_Score_is 1];
            rand_src := fun i => rand_src world0 (1 + (1 + i))%nat |}.
Proof.
  refine (@round_can_score_in_its_first_call glm_0_9_8 ticks 0%nat 0%nat
            (call origin (answered 0x10) 1000 1000) world0 origin
            (reachable_new ticks true 7 (F64.of_Z 0) counting)
            eq_refl eq_refl eq_refl _ _ _ _ (le_n 0)).
  - vm_compute. reflexivity.
  - vm_compute. reflexivity.
  - vm_compute. reflexivity.
  - split; [intros j Hj; lia|]. vm_compute. discriminate.
Defined.

Lemma only_the_target_is_highlighted_witness :
  exists w',
    renderScene ticks 0 (call far_right (answered 0x10) 5 2000) world1 = Done w' /\
    selectedSphere (app w') = 0 /\
    renderScene_drawing ticks 0 (call far_right (answered 0x10) 5 2000) world1
                        highlightID =
      Done {| world := w';
              shaderID := unhighlightID;
              drawn := map (fun k => (k, shader_of 0 k)) all_spheres |}.
Proof.
  apply (@only_the_target_is_highlighted glm_0_9_8 ticks 0%nat
           (call far_right (answered 0x10) 5 2000) world1 origin highlightID);
    vm_compute; reflexivity.
Defined.

Lemma new_target_shows_only_behind_the_old_one_witness :
  exists w',
    renderScene ticks 0 (call origin (answered 0x10) 5 2000) world1 = Done w' /\
    selectedSphere (app w') = 1 /\
    renderScene_drawing ticks 0 (call origin (answered 0x10) 5 2000) world1
                        unhighlightID =
      Done {| world := w';
              shaderID := shader_after_hit 0 (selectedSphere (app w')) 124;
              drawn := map (fun i => (i, shader_after_hit 0 (selectedSphere (app w')) i))
                           all_spheres |}.
Proof.
  apply (@new_target_shows_only_behind_the_old_one glm_0_9_8 ticks 0%nat 0%nat
           (call origin (answered 0x10) 5 2000) world1 origin unhighlightID);
    try (vm_compute; reflexivity).
  split; [intros j Hj; lia | vm_compute; discriminate].
Defined.

Lemma idle_call_draws_with_the_shader_at_hand_witness :
  renderScene_drawing ticks 0 quiet world0 highlightID =
    Done {| world := world0; shaderID := highlightID;
            drawn := map (fun k => (k, highlightID)) all_spheres |}.
Proof.
  apply (@idle_call_draws_with_the_shader_at_hand glm_0_9_8 ticks 0%nat quiet
           world0 world0 highlightID); vm_compute; reflexivity.
Defined.

Lemma idle_grid_keeps_the_last_shader_witness :
  renderScene_drawing ticks 0 (call far_right (answered 0x10) 5 61000) (world pass1)
                      (shaderID pass1) =
    Done {| world := world_over;
            shaderID := if selectedSphere (app world1) =? NUM_SPHERES - 1
                        then highlightID else unhighlightID;
            drawn := map (fun k => (k, if selectedSphere (app world1) =? NUM_SPHERES - 1
                                       then highlightID else unhighlightID))
                         all_spheres |}.
Proof.
  refine (@idle_grid_keeps_the_last_shader glm_0_9_8 ticks 0%nat
            (call far_right (answered 0x10) 5 2000)
            (call far_right (answered 0x10) 5 61000)
            world1 origin highlightID pass1 world_over eq_refl eq_refl _ _ _ _ _ _).
  - vm_compute. reflexivity.
  - vm_compute. reflexivity.
  - vm_compute. reflexivity.
  - vm_compute. reflexivity.
  - vm_compute. reflexivity.
  - vm_compute. reflexivity.
Defined.

Lemma loop_runs_until_something_closes_witness :
  false = false /\
  shouldClose app_two_frames = 0 /\
  frame app_two_frames =
    to_unsigned (frame app0 + Z.of_nat (length [frame_R; frame_quiet])) /\
  recentred app_two_frames =
    (recentred app0 +
     length (filter recentres (flat_map events [frame_R; frame_quiet])))%nat.
Proof.
  refine (@loop_runs_until_something_closes glm_0_9_8 ticks 0%nat
            [frame_R; frame_quiet] app0 false app_two_frames eq_refl _ _ _).
  - vm_compute. split; [discriminate|reflexivity].
  - repeat constructor.
  - vm_compute. reflexivity.
Defined.

Lemma closing_frame_is_drawn_and_is_the_last_witness :
  frameLoop ticks 0 ([frame_R] ++ frame_escape :: [frame_quiet; frame_R]) app0 =
    Done (true,
          {| game := world0;
             shouldClose := 1;
             frame := to_unsigned (1 + 1);
             recentred := (1 + length (filter recentres (events frame_escape)))%nat |}).
Proof.
  refine (@closing_frame_is_drawn_and_is_the_last glm_0_9_8 ticks 0%nat
            [frame_R] frame_escape [frame_quiet; frame_R] app0 world0
            {| game := world0; shouldClose := 0; frame := 1; recentred := 1 |}
            eq_refl _ eq_refl _ _).
  - repeat constructor.
  - vm_compute. reflexivity.
  - vm_compute. reflexivity.
Defined.

Lemma frame_loop_keeps_the_game_reachable_witness :
  reachable ticks (game app_escaped).
Proof.
  refine (@frame_loop_keeps_the_game_reachable glm_0_9_8 ticks 0%nat
            [frame_R; frame_escape; frame_quiet] app0 true app_escaped
            (reachable_new ticks true 7 (F64.of_Z 0) counting) _).
  vm_compute. reflexivity.
Defined.

Lemma matrix_round_trip_witness :
  component (column (ovr.toGlm_Matrix4f counting_matrix) 2) 1 =
  component (row counting_matrix 1) 2.
Proof.
  refine (proj2 (proj2 (matrix_round_trip counting_matrix
                          (ovr.toGlm_Matrix4f counting_matrix))) 1%nat 2%nat _ _);
    lia.
Defined.

Lemma size_round_trip_witness :
  ovr.fromGlm_uvec2 (ovr.toGlm_Sizei (Sizei (-1) 1600)) = Sizei (-1) 1600 /\
  ovr.toGlm_Sizei (ovr.fromGlm_uvec2 (Uvec2 4294967295 1600)) = Uvec2 4294967295 1600.
Proof.
  destruct (size_round_trip (Sizei (-1) 1600) (Uvec2 4294967295 1600)) as [H1 H2].
  split; [apply H1 | apply H2]; simpl; lia.
Defined.

Lemma eyes_sit_side_by_side_witness :
  let l := RiftApp_layout (Uvec2 0 0) eye_size eye_size in
  Size (Viewport_Left l) = eye_size /\
  Size (Viewport_Right l) = eye_size /\
  Pos_x (Viewport_Left l) = ux (Uvec2 0 0) /\
  Pos_x (Viewport_Right l) = Pos_x (Viewport_Left l) + Size_w eye_size /\
  Pos_y (Viewport_Left l) = 0 /\ Pos_y (Viewport_Right l) = 0 /\
  ux (renderTargetSize l) = Pos_x (Viewport_Right l) + Size_w eye_size /\
  uy (renderTargetSize l) =
    Z.max (uy (Uvec2 0 0)) (Z.max (Size_h eye_size) (Size_h eye_size)) /\
  mirrorSize l = Uvec2 (ux (renderTargetSize l) / 4) (uy (renderTargetSize l) / 4).
Proof.
  apply (@eyes_sit_side_by_side (Uvec2 0 0) eye_size eye_size); simpl; lia.
Defined.

Lemma setup_fails_only_by_exception_witness :
  main_setup good_host = Ready 4096 /\
  (exists what, main_setup empty_chain_host = Throw what) /\
  main_setup no_window_host = Throw (Description (snd format_unavailable)).
Proof.
  destruct (setup_fails_only_by_exception good_host) as (_ & Hok & _ & _).
  destruct (setup_fails_only_by_exception empty_chain_host) as (_ & _ & Hbad & _).
  destruct (setup_fails_only_by_exception no_window_host) as (_ & _ & _ & _ & Herr).
  split; [apply Hok; reflexivity|].
  split; [apply Hbad; reflexivity|].
  apply (Herr (fst format_unavailable)); try reflexivity.
  discriminate.
Defined.
